(** * Video upload backend: a shallow embedding of [src/api/main.py]

    The development follows the source file top to bottom: the string and
    path helpers of the Python standard library that the code calls
    ([str.rfind], slicing, [str.lower], [os.path.splitext], [os.path.join],
    [strftime], [uuid4().hex]), the name generator
    [_safe_destination_filename], the bounded stream writer
    [_enforce_file_size] and the orchestrator [upload_video].

    Python [str] values are modelled as [string] (code points 0..255),
    [bytes] as [list byte], Python integers as [Z], the upload directory as
    a finite map from paths to file contents. *)

From Stdlib Require Import ZArith NArith Ascii String List Lia.
From Stdlib Require Import Strings.Byte.
From stdpp Require Import gmap strings list.
Import ListNotations.

Local Open Scope Z_scope.

(** ** Python strings *)

Module PyStr.

(** [s.rfind(c)] for a one-character needle: the highest index holding
    [c], or -1. *)
Fixpoint rfind (c : ascii) (s : string) : Z :=
  match s with
  | EmptyString => -1
  | String x s' =>
      let r := rfind c s' in
      if 0 <=? r then r + 1
      else if Ascii.eqb x c then 0 else -1
  end.

(** [s[:n]] and [s[n:]] for a non-negative [n]. *)
Fixpoint take (n : nat) (s : string) : string :=
  match n with
  | O => EmptyString
  | S k =>
      match s with
      | EmptyString => EmptyString
      | String x s' => String x (take k s')
      end
  end.

Fixpoint drop (n : nat) (s : string) : string :=
  match n with
  | O => s
  | S k =>
      match s with
      | EmptyString => EmptyString
      | String _ s' => drop k s'
      end
  end.

(** [s[i:i+1]]: the one-character slice at [i], empty out of range. *)
Definition slice1 (s : string) (i : Z) : string :=
  take 1 (drop (Z.to_nat i) s).

Definition code (c : ascii) : N := N_of_ascii c.

(** [c.lower()] on the code points 0..255: A-Z, and the Latin-1 capitals
    U+00C0..U+00DE except the multiplication sign U+00D7, move up by 32. *)
Definition lower_char (c : ascii) : ascii :=
  let n := code c in
  if ((65 <=? n) && (n <=? 90)
      || (192 <=? n) && (n <=? 214)
      || (216 <=? n) && (n <=? 222))%N
  then ascii_of_N (n + 32) else c.

(** [s.lower()] for a string of such code points. Outside them Python's
    [lower] can change the number of characters; nothing below relies on
    the length of a lowered string. *)
Fixpoint lower (s : string) : string :=
  match s with
  | EmptyString => EmptyString
  | String x s' => String (lower_char x) (lower s')
  end.

Definition startswith (s : string) (c : ascii) : bool :=
  match s with
  | String x _ => Ascii.eqb x c
  | EmptyString => false
  end.

Fixpoint endswith (s : string) (c : ascii) : bool :=
  match s with
  | EmptyString => false
  | String x EmptyString => Ascii.eqb x c
  | String _ s' => endswith s' c
  end.

(** [x in s] for a character. *)
Fixpoint contains (c : ascii) (s : string) : bool :=
  match s with
  | EmptyString => false
  | String x s' => Ascii.eqb x c || contains c s'
  end.

(** [s.lstrip(c)]: [s] without its leading [c]s. *)
Fixpoint lstrip (c : ascii) (s : string) : string :=
  match s with
  | String x s' => if Ascii.eqb x c then lstrip c s' else s
  | EmptyString => EmptyString
  end.

(** Every character of [s] is [c]. *)
Fixpoint all_eq (c : ascii) (s : string) : bool :=
  match s with
  | EmptyString => true
  | String x s' => Ascii.eqb x c && all_eq c s'
  end.

(** Truthiness of a string: empty is falsy. *)
Definition truthy (s : string) : bool :=
  match s with EmptyString => false | _ => true end.

(** [o or d] where [o] may be [None]. *)
Definition or_else (o : option string) (d : string) : string :=
  match o with
  | Some s => if truthy s then s else d
  | None => d
  end.

(** The digit alphabet of [%d] and [%x]. *)
Definition digit_char (d : N) : ascii :=
  if (d <? 10)%N then ascii_of_N (48 + d) else ascii_of_N (87 + d).

(** The [width] low digits of [n] in base [base], zero padded. *)
Fixpoint fixed_digits (base : N) (width : nat) (n : N) : string :=
  match width with
  | O => EmptyString
  | S w => fixed_digits base w (n / base) +:+ String (digit_char (n mod base)) EmptyString
  end.

End PyStr.

(** ** [os.path] (POSIX flavour) *)

Module OsPath.
Import PyStr.

Definition sep : ascii := "/"%char.
Definition extsep : ascii := "."%char.

(** The [while filenameIndex < dotIndex] loop of [genericpath._splitext]:
    [Some] is the early [return p[:dotIndex], p[dotIndex:]], [None] is
    falling out of the loop. At most [dotIndex - filenameIndex] rounds. *)
Fixpoint skip_leading_dots (p : string) (ext_sep : ascii)
         (dotIndex filenameIndex : Z) (rounds : nat) : option (string * string) :=
  match rounds with
  | O => None
  | S k =>
      if filenameIndex <? dotIndex then
        if negb (String.eqb (slice1 p filenameIndex) (String ext_sep EmptyString))
        then Some (take (Z.to_nat dotIndex) p, drop (Z.to_nat dotIndex) p)
        else skip_leading_dots p ext_sep dotIndex (filenameIndex + 1) k
      else None
  end.

(** [genericpath._splitext(p, sep, altsep, extsep)]. *)
Definition _splitext (p : string) (sep_ : ascii) (altsep : option ascii)
           (ext_sep : ascii) : string * string :=
  let sepIndex := rfind sep_ p in
  let sepIndex :=
    match altsep with
    | Some a => Z.max sepIndex (rfind a p)
    | None => sepIndex
    end in
  let dotIndex := rfind ext_sep p in
  let fallthrough := (p, EmptyString) in
  if sepIndex <? dotIndex then
    match skip_leading_dots p ext_sep dotIndex (sepIndex + 1)
                            (Z.to_nat (dotIndex - (sepIndex + 1))) with
    | Some r => r
    | None => fallthrough
    end
  else fallthrough.

(** [posixpath.splitext]. *)
Definition splitext (p : string) : string * string :=
  _splitext p sep None extsep.

(** [posixpath.basename]: what follows the last separator. *)
Definition basename (p : string) : string :=
  drop (Z.to_nat (rfind sep p + 1)) p.

(** [posixpath.join(a, b)] for two components. *)
Definition join (a b : string) : string :=
  if startswith b sep then b
  else if negb (truthy a) || endswith a sep then a +:+ b
  else a +:+ String sep EmptyString +:+ b.

End OsPath.

(** ** The environment of one request

    Everything the code obtains from outside: the process environment, the
    clock, the two random UUIDs it draws, and which call (if any) raises:
    [open], one [read], one [write], [os.replace] and [os.remove] may raise
    [OSError]; the failing [read] - the only call the code awaits - may
    instead be the point where the request's task is cancelled. *)

Record datetime := {
  year : N; month : N; day : N; hour : N; minute : N; second : N
}.

Record env := {
  getenv_UPLOAD_DIR : option string;   (* os.getenv("UPLOAD_DIR") *)
  utcnow : datetime;                   (* datetime.utcnow() *)
  uuid_tmp : N;                        (* uuid4() drawn for the temp path *)
  uuid_name : N;                       (* uuid4() drawn for the final name *)
  fault_open : bool;                   (* open(tmp_path, "wb") raises *)
  fault_read : option nat;             (* the read call with this index raises *)
  fault_write : option (nat * nat);    (* (i, k): write call i raises after k bytes *)
  fault_replace : bool;                (* os.replace raises *)
  fault_remove : bool;                 (* os.remove raises *)
  read_cancelled : bool;               (* the failing read raises CancelledError *)
  exc_text : string                    (* str(exc) of the raised OSError *)
}.

(** [dt.strftime("%Y%m%dT%H%M%SZ")] for the clock of a running server: the
    year is printed on four digits, as it is for the years 1000 to 9999. *)
Definition strftime (dt : datetime) : string :=
  PyStr.fixed_digits 10 4 (year dt) +:+ PyStr.fixed_digits 10 2 (month dt)
  +:+ PyStr.fixed_digits 10 2 (day dt) +:+ "T"
  +:+ PyStr.fixed_digits 10 2 (hour dt) +:+ PyStr.fixed_digits 10 2 (minute dt)
  +:+ PyStr.fixed_digits 10 2 (second dt) +:+ "Z".

(** [uuid.hex]: 32 lower-case hexadecimal digits of the 128-bit value. *)
Definition uuid_hex (u : N) : string := PyStr.fixed_digits 16 32 u.

(** ** Constants *)

Definition MAX_FILE_SIZE_BYTES : Z := 500 * 1024 * 1024.

Definition UPLOAD_DIR (e : env) : string :=
  match getenv_UPLOAD_DIR e with
  | Some d => d
  | None => "./upload"
  end.

(** ** Name generator *)

Definition _safe_destination_filename (e : env) (original_name : string) : string :=
  let '(base, ext) := OsPath.splitext original_name in
  let ext := PyStr.lower ext in
  let ts := strftime (utcnow e) in
  let unique := uuid_hex (uuid_name e) in
  ts +:+ "_" +:+ unique +:+ ext.

(** ** The name generator as the specification words it

    Split at the last "."; a name with no "." has an empty extension. *)

Module Spec.

Definition split_at_last_dot (name : string) : string * string :=
  let i := PyStr.rfind "." name in
  if i <? 0 then (name, EmptyString)
  else (PyStr.take (Z.to_nat i) name, PyStr.drop (Z.to_nat i) name).

Definition generate (e : env) (original_filename : string) : string :=
  let '(base, ext) := split_at_last_dot original_filename in
  strftime (utcnow e) +:+ "_" +:+ uuid_hex (uuid_name e) +:+ PyStr.lower ext.

End Spec.

(** ** Exceptions and outcomes *)

(** [HTTPException] and [OSError] are [Exception]s; [CancelledError] is a
    [BaseException] only, which [except Exception] does not catch. *)
Inductive exn :=
| HTTPException (status_code : Z) (detail : string)
| OSError (msg : string)
| CancelledError.

Module status.
Definition HTTP_400_BAD_REQUEST : Z := 400.
Definition HTTP_413_REQUEST_ENTITY_TOO_LARGE : Z := 413.
Definition HTTP_500_INTERNAL_SERVER_ERROR : Z := 500.
End status.

(** What a call does: return a value, raise, or (for the [while True] loop
    only) fail to finish within the rounds it was given. *)
Inductive outcome (A : Type) :=
| Return (a : A)
| Raise (ex : exn)
| Diverge.
Arguments Return {A} a.
Arguments Raise {A} ex.
Arguments Diverge {A}.

(** ** The upload directory as a file system *)

Abbreviation filesystem := (gmap string (list byte)).

Module Os.

(** [if os.path.exists(p): os.remove(p)]: the file system it leaves. A
    removal that raises leaves the file where it is. *)
Definition remove_if_exists (e : env) (p : string) (fs : filesystem) : filesystem :=
  match fs !! p with
  | Some _ => if fault_remove e then fs else delete p fs
  | None => fs
  end.

(** Whether [if os.path.exists(p): os.remove(p)] raises: only a removal
    that is attempted can. *)
Definition remove_raises (e : env) (p : string) (fs : filesystem) : bool :=
  match fs !! p with
  | Some _ => fault_remove e
  | None => false
  end.

(** [os.replace(src, dst)]: [None] when it raises (an injected fault, or
    no file at [src]); the file system is then unchanged. *)
Definition replace (e : env) (src dst : string) (fs : filesystem) : option filesystem :=
  if fault_replace e then None
  else match fs !! src with
       | Some content => Some (<[dst := content]> (delete src fs))
       | None => None
       end.

End Os.

(** ** Request and response *)

Module UploadFile.
Record t := {
  filename : option string;
  content_type : option string;
  body : list byte          (* the bytes [read] hands out, in order *)
}.
End UploadFile.

Module UploadResponse.
Record t := {
  filename : string;
  saved_as : string;
  size_bytes : Z;
  content_type : option string;
  upload_dir : string
}.
End UploadResponse.

(** ** Bounded stream writer *)

Definition chunk_size : Z := 1024 * 1024.

Inductive loop_status :=
| Running                 (* about to start another round of the loop *)
| Broke                   (* left by [break] *)
| Raised (ex : exn).      (* left by an exception *)

(** The variables of [_enforce_file_size] while the loop runs, with the
    position of the stream and the content of the temp file. *)
Record loop_state := {
  unread : list byte;     (* bytes [file.read] has not returned yet *)
  total : Z;
  written : list byte;    (* content of the temp file *)
  reads : nat;            (* calls of [file.read] so far *)
  writes : nat;           (* calls of [out.write] so far *)
  st : loop_status
}.

Definition loop_init (file : UploadFile.t) : loop_state :=
  {| unread := UploadFile.body file; total := 0; written := [];
     reads := 0; writes := 0; st := Running |}.

Definition too_large_detail : string :=
  "File too large. Max allowed size is 524288000 bytes (500MB).".

Definition read_raises (e : env) (i : nat) : bool :=
  match fault_read e with
  | Some j => Nat.eqb i j
  | None => false
  end.

Definition write_raises (e : env) (i : nat) : option nat :=
  match fault_write e with
  | Some (j, k) => if Nat.eqb i j then Some k else None
  | None => None
  end.

(** What the failing read raises. *)
Definition read_exception (e : env) : exn :=
  if read_cancelled e then CancelledError else OSError (exc_text e).

(** One round of the [while True] loop. *)
Definition loop_body (e : env) (s : loop_state) : loop_state :=
  match st s with
  | Running =>
      if read_raises e (reads s) then
        {| unread := unread s; total := total s; written := written s;
           reads := S (reads s); writes := writes s;
           st := Raised (read_exception e) |}
      else
        let chunk := firstn (Z.to_nat chunk_size) (unread s) in
        let rest := skipn (Z.to_nat chunk_size) (unread s) in
        match chunk with
        | [] =>
            {| unread := rest; total := total s; written := written s;
               reads := S (reads s); writes := writes s; st := Broke |}
        | _ :: _ =>
            let total' := total s + Z.of_nat (length chunk) in
            if total' >? MAX_FILE_SIZE_BYTES then
              {| unread := rest; total := total'; written := written s;
                 reads := S (reads s); writes := writes s;
                 st := Raised (HTTPException status.HTTP_413_REQUEST_ENTITY_TOO_LARGE
                                             too_large_detail) |}
            else
              match write_raises e (writes s) with
              | Some k =>
                  {| unread := rest; total := total';
                     written := written s ++ firstn k chunk;
                     reads := S (reads s); writes := S (writes s);
                     st := Raised (OSError (exc_text e)) |}
              | None =>
                  {| unread := rest; total := total';
                     written := written s ++ chunk;
                     reads := S (reads s); writes := S (writes s);
                     st := Running |}
              end
        end
  | _ => s
  end.

(** The state after [n] rounds; a state that has left the loop stays. *)
Definition rounds (e : env) (n : nat) (s : loop_state) : loop_state :=
  Nat.iter n (loop_body e) s.

Definition tmp_path_of (e : env) : string :=
  OsPath.join (UPLOAD_DIR e) (".uploading_" +:+ uuid_hex (uuid_tmp e) +:+ ".part").

(** The state in which the loop of [_enforce_file_size] ends: one round per
    byte of the body and one more are enough (see [loop_finishes]). *)
Definition loop_final (e : env) (file : UploadFile.t) : loop_state :=
  rounds e (S (length (UploadFile.body file))) (loop_init file).

Definition receive_failed (msg : string) : exn :=
  HTTPException status.HTTP_500_INTERNAL_SERVER_ERROR
                ("Failed to receive file data: " +:+ msg).

Definition _enforce_file_size (e : env) (fs : filesystem) (file : UploadFile.t)
  : outcome (Z * string) * filesystem :=
  let tmp_path := tmp_path_of e in
  if fault_open e then
    (* except Exception: the cleanup runs, then [finally] raises the 500 *)
    (Raise (receive_failed (exc_text e)), Os.remove_if_exists e tmp_path fs)
  else
    let s := loop_final e file in
    let fs1 := <[tmp_path := written s]> fs in
    match st s with
    | Broke => (Return (total s, tmp_path), fs1)
    | Raised (HTTPException c d) =>
        (* except HTTPException: the cleanup runs, then [finally] does a
           bare [raise]: the 413 again, or the removal's error when the
           removal raised *)
        (Raise (if Os.remove_raises e tmp_path fs1
                then OSError (exc_text e) else HTTPException c d),
         Os.remove_if_exists e tmp_path fs1)
    | Raised (OSError msg) =>
        (* except Exception: the cleanup runs, then [finally] raises the 500 *)
        (Raise (receive_failed msg), Os.remove_if_exists e tmp_path fs1)
    | Raised CancelledError =>
        (* caught by neither [except] clause: it leaves the function, and
           no cleanup runs *)
        (Raise CancelledError, fs1)
    | Running => (Diverge, fs1)
    end.

(** ** Orchestrator *)

Definition content_type_is_expected (content_type : string) : bool :=
  String.prefix "video/" content_type
  || String.eqb content_type "application/octet-stream"
  || String.eqb content_type "".

Definition save_failed (msg : string) : exn :=
  HTTPException status.HTTP_500_INTERNAL_SERVER_ERROR
                ("Failed to save file: " +:+ msg).

Definition upload_video (e : env) (fs : filesystem) (file : option UploadFile.t)
  : outcome UploadResponse.t * filesystem :=
  match file with
  | None =>
      (Raise (HTTPException status.HTTP_400_BAD_REQUEST "No file part provided."), fs)
  | Some file =>
      let content_type := PyStr.or_else (UploadFile.content_type file) "" in
      (* the content-type test guards a [pass]: both branches go on *)
      let _ := if negb (content_type_is_expected content_type) then tt else tt in
      match _enforce_file_size e fs file with
      | (Return (total_size, tmp_path), fs1) =>
          let final_name :=
            _safe_destination_filename e (PyStr.or_else (UploadFile.filename file) "upload.bin") in
          let dest_path := OsPath.join (UPLOAD_DIR e) final_name in
          match Os.replace e tmp_path dest_path fs1 with
          | Some fs2 =>
              (Return {| UploadResponse.filename :=
                           PyStr.or_else (UploadFile.filename file) final_name;
                         UploadResponse.saved_as := final_name;
                         UploadResponse.size_bytes := total_size;
                         UploadResponse.content_type :=
                           if PyStr.truthy content_type then Some content_type else None;
                         UploadResponse.upload_dir := UPLOAD_DIR e |}, fs2)
          | None =>
              (* except Exception: the cleanup runs, then [finally] raises *)
              (Raise (save_failed (exc_text e)), Os.remove_if_exists e tmp_path fs1)
          end
      | (Raise ex, fs1) => (Raise ex, fs1)
      | (Diverge, fs1) => (Diverge, fs1)
      end
  end.

(** ** JSON responses and the exception handlers *)

(** The values the dicts of this file hold, and a dict as its items in the
    order written. *)
Inductive json :=
| JStr (s : string)
| JInt (n : Z).

Abbreviation dict := (list (string * json)).

Module JSONResponse.
Record t := {
  status_code : Z;
  content : dict
}.
End JSONResponse.

(** [http_exception_handler(request, exc)]; the request is not looked at. *)
Definition http_exception_handler (exc : exn) : option JSONResponse.t :=
  match exc with
  | HTTPException status_code detail =>
      Some {| JSONResponse.status_code := status_code;
              JSONResponse.content := [("detail", JStr detail)] |}
  | OSError _ | CancelledError =>
      None   (* not an HTTPException: the handler is not the one called *)
  end.

(** [unhandled_exception_handler(request, exc)]. *)
Definition unhandled_exception_handler (exc : exn) : JSONResponse.t :=
  {| JSONResponse.status_code := status.HTTP_500_INTERNAL_SERVER_ERROR;
     JSONResponse.content := [("detail", JStr "An unexpected error occurred.")] |}.

(** The response the registered handlers build for an exception that
    leaves an endpoint: the handler registered for [HTTPException] when it
    is one, the handler registered for [Exception] when it is another
    [Exception]; none of the two is registered for a [CancelledError]. *)
Definition exception_response (exc : exn) : option JSONResponse.t :=
  match exc with
  | HTTPException _ _ => http_exception_handler exc
  | OSError _ => Some (unhandled_exception_handler exc)
  | CancelledError => None
  end.

(** ** Usage endpoint *)

(** [d.get(key)]. *)
Fixpoint dict_get (key : string) (d : dict) : option json :=
  match d with
  | [] => None
  | (k, v) :: d' => if String.eqb k key then Some v else dict_get key d'
  end.

Definition docs_usage (e : env) : dict :=
  [ ("example_curl",
      JStr ("curl -X POST http://localhost:8000/upload "
            +:+ "-H 'Accept: application/json' "
            +:+ "-F 'file=@/path/to/video.mp4'"));
    ("max_size_bytes", JInt MAX_FILE_SIZE_BYTES);
    ("upload_field", JStr "file");
    ("destination_dir", JStr (UPLOAD_DIR e)) ].

(** ** Vocabulary of the statements *)

(** No call raises: [open], every [read] and [write], [os.replace] and
    [os.remove] succeed (so no read is cancelled either). *)
Definition no_faults (e : env) : Prop :=
  fault_open e = false /\ fault_read e = None
  /\ fault_write e = None /\ fault_replace e = false
  /\ fault_remove e = false.

Definition too_large : exn :=
  HTTPException status.HTTP_413_REQUEST_ENTITY_TOO_LARGE too_large_detail.

(** The upload directory while the loop runs: the directory the call found,
    with the temp file holding what has been written after [n] rounds. *)
Definition disk_during (e : env) (fs : filesystem) (file : UploadFile.t)
           (n : nat) : filesystem :=
  <[tmp_path_of e := written (rounds e n (loop_init file))]> fs.

(** The name under which the request is stored, its path, and the response
    a successful call builds. *)
Definition final_name_of (e : env) (file : UploadFile.t) : string :=
  _safe_destination_filename e (PyStr.or_else (UploadFile.filename file) "upload.bin").

Definition dest_path_of (e : env) (file : UploadFile.t) : string :=
  OsPath.join (UPLOAD_DIR e) (final_name_of e file).

Definition declared_content_type (file : UploadFile.t) : option string :=
  let content_type := PyStr.or_else (UploadFile.content_type file) "" in
  if PyStr.truthy content_type then Some content_type else None.

Definition response_of (e : env) (file : UploadFile.t) : UploadResponse.t :=
  {| UploadResponse.filename :=
       PyStr.or_else (UploadFile.filename file) (final_name_of e file);
     UploadResponse.saved_as := final_name_of e file;
     UploadResponse.size_bytes := Z.of_nat (length (UploadFile.body file));
     UploadResponse.content_type := declared_content_type file;
     UploadResponse.upload_dir := UPLOAD_DIR e |}.

Definition with_content_type (ct : option string) (file : UploadFile.t)
  : UploadFile.t :=
  {| UploadFile.filename := UploadFile.filename file;
     UploadFile.content_type := ct;
     UploadFile.body := UploadFile.body file |}.

Definition erase_content_type (o : outcome UploadResponse.t)
  : outcome UploadResponse.t :=
  match o with
  | Return r =>
      Return {| UploadResponse.filename := UploadResponse.filename r;
                UploadResponse.saved_as := UploadResponse.saved_as r;
                UploadResponse.size_bytes := UploadResponse.size_bytes r;
                UploadResponse.content_type := None;
                UploadResponse.upload_dir := UploadResponse.upload_dir r |}
  | Raise ex => Raise ex
  | Diverge => Diverge
  end.

(** What the number of reads says about the position in the body [b]. *)
Definition reads_inv (b : list byte) (s : loop_state) : Prop :=
  match st s with
  | Running =>
      total s = Z.min (Z.of_nat (reads s) * chunk_size) (Z.of_nat (length b))
      /\ Z.of_nat (length (unread s)) = Z.of_nat (length b) - total s
      /\ Z.of_nat (reads s) * chunk_size < Z.of_nat (length b) + chunk_size
  | _ =>
      (0 < reads s)%nat
      /\ (Z.of_nat (reads s) - 1) * chunk_size < Z.of_nat (length b) + chunk_size
  end.

(** ** A sample environment and request *)

Definition env0 : env :=
  {| getenv_UPLOAD_DIR := None;
     utcnow := {| year := 2025; month := 1; day := 1; hour := 12; minute := 0; second := 0 |};
     uuid_tmp := 0x0123456789abcdef0123456789abcdef;
     uuid_name := 0xfedcba9876543210fedcba9876543210;
     fault_open := false; fault_read := None; fault_write := None;
     fault_replace := false; fault_remove := false; read_cancelled := false;
     exc_text := "" |}.

Definition sample_file : UploadFile.t :=
  {| UploadFile.filename := Some "Movie.MP4";
     UploadFile.content_type := Some "video/mp4";
     UploadFile.body := [x01; x02; x03] |}.

Definition with_faults (o : bool) (r : option nat) (w : option (nat * nat))
           (p : bool) (msg : string) : env :=
  {| getenv_UPLOAD_DIR := getenv_UPLOAD_DIR env0; utcnow := utcnow env0;
     uuid_tmp := uuid_tmp env0; uuid_name := uuid_name env0;
     fault_open := o; fault_read := r; fault_write := w; fault_replace := p;
     fault_remove := false; read_cancelled := false; exc_text := msg |}.

Definition env_write_fails : env :=
  with_faults false None (Some (0, 2)%nat) false "No space left on device".

Definition env_replace_fails : env :=
  with_faults false None None true "Permission denied".

Definition body_of_length (n : Z) : list byte := repeat x00 (Z.to_nat n).

Definition file_of_length (n : Z) : UploadFile.t :=
  {| UploadFile.filename := Some "clip.mp4";
     UploadFile.content_type := Some "video/mp4";
     UploadFile.body := body_of_length n |}.

Definition file_at_limit : UploadFile.t := file_of_length MAX_FILE_SIZE_BYTES.
Definition file_over_limit : UploadFile.t := file_of_length (MAX_FILE_SIZE_BYTES + 1).

Definition overflow_rounds : nat := S (length (UploadFile.body file_over_limit)).

Definition empty_file : UploadFile.t :=
  {| UploadFile.filename := Some "empty.mp4";
     UploadFile.content_type := Some "video/mp4";
     UploadFile.body := [] |}.

Definition file_without_name : UploadFile.t :=
  {| UploadFile.filename := Some "";
     UploadFile.content_type := Some "video/mp4";
     UploadFile.body := [x01] |}.

Definition sample_response : UploadResponse.t :=
  {| UploadResponse.filename := "Movie.MP4";
     UploadResponse.saved_as :=
       "20250101T120000Z_fedcba9876543210fedcba9876543210.mp4";
     UploadResponse.size_bytes := 3;
     UploadResponse.content_type := Some "video/mp4";
     UploadResponse.upload_dir := "./upload" |}.

Definition env_read_fails : env :=
  with_faults false (Some 1%nat) None false "Connection reset by peer".

(** [e], where moreover [os.remove] raises. *)
Definition removal_fails (e : env) : env :=
  {| getenv_UPLOAD_DIR := getenv_UPLOAD_DIR e; utcnow := utcnow e;
     uuid_tmp := uuid_tmp e; uuid_name := uuid_name e;
     fault_open := fault_open e; fault_read := fault_read e;
     fault_write := fault_write e; fault_replace := fault_replace e;
     fault_remove := true; read_cancelled := read_cancelled e;
     exc_text := exc_text e |}.


Definition env_cleanup_fails : env := removal_fails env_write_fails.

Definition env_open_fails : env :=
  with_faults true None None false "Disk quota exceeded".


Definition env1 : env :=
  {| getenv_UPLOAD_DIR := None;
     utcnow := {| year := 2025; month := 1; day := 1; hour := 12; minute := 0; second := 0 |};
     uuid_tmp := 0x00112233445566778899aabbccddeeff;
     uuid_name := 0x000102030405060708090a0b0c0d0e0f;
     fault_open := false; fault_read := None; fault_write := None;
     fault_replace := false; fault_remove := false; read_cancelled := false;
     exc_text := "" |}.

Definition empty_response1 : UploadResponse.t :=
  {| UploadResponse.filename := "empty.mp4";
     UploadResponse.saved_as :=
       "20250101T120000Z_000102030405060708090a0b0c0d0e0f.mp4";
     UploadResponse.size_bytes := 0;
     UploadResponse.content_type := Some "video/mp4";
     UploadResponse.upload_dir := "./upload" |}.

(** * Properties *)

(** ** The loop of the bounded stream writer *)

Lemma chunk_size_pos : (0 < Z.to_nat chunk_size)%nat.
Proof. unfold chunk_size. lia. Qed.

Lemma MAX_FILE_SIZE_BYTES_val : MAX_FILE_SIZE_BYTES = 524288000.
Proof. reflexivity. Qed.

Lemma chunk_size_val : chunk_size = 1048576.
Proof. reflexivity. Qed.

(** The digits in [too_large_detail] are those of [MAX_FILE_SIZE_BYTES]. *)
Example too_large_detail_digits :
  too_large_detail
  = "File too large. Max allowed size is "
    +:+ PyStr.fixed_digits 10 9 (Z.to_N MAX_FILE_SIZE_BYTES)
    +:+ " bytes (500MB).".
Proof. reflexivity. Qed.

Global Opaque chunk_size MAX_FILE_SIZE_BYTES.

Section Loop.
Variable e : env.

Lemma loop_body_left s : st s <> Running -> loop_body e s = s.
Proof. unfold loop_body. destruct (st s); congruence. Qed.

Lemma rounds_S n s : rounds e (S n) s = loop_body e (rounds e n s).
Proof. reflexivity. Qed.

Lemma rounds_left n s : st s <> Running -> rounds e n s = s.
Proof.
  intros H. induction n as [|n IH]; [reflexivity|].
  rewrite rounds_S, IH. now apply loop_body_left.
Qed.

Lemma rounds_add n k s : rounds e (n + k) s = rounds e k (rounds e n s).
Proof.
  induction k as [|k IH].
  - now rewrite Nat.add_0_r.
  - now rewrite Nat.add_succ_r, !rounds_S, IH.
Qed.

Lemma loop_body_running s : st (loop_body e s) = Running -> st s = Running.
Proof.
  intros H. destruct (st s) eqn:E; [reflexivity| |];
    rewrite loop_body_left in H by congruence; congruence.
Qed.

(** A round that stays in the loop has handed out at least one byte. *)
Lemma loop_body_progress s :
  st (loop_body e s) = Running ->
  (length (unread (loop_body e s)) < length (unread s))%nat.
Proof.
  pose proof chunk_size_pos as Hc.
  unfold loop_body. destruct (st s) eqn:Es; [|congruence..].
  destruct (read_raises e (reads s)); [simpl; congruence|].
  destruct (firstn (Z.to_nat chunk_size) (unread s)) as [|x chunk] eqn:E;
    [simpl; congruence|].
  destruct (_ >? _); [simpl; congruence|].
  destruct (write_raises e (writes s)); [simpl; congruence|].
  simpl. intros _. rewrite length_skipn.
  destruct (unread s) as [|y l]; simpl.
  - now rewrite firstn_nil in E.
  - lia.
Qed.

Lemma rounds_progress n s :
  st (rounds e n s) = Running ->
  (length (unread (rounds e n s)) + n <= length (unread s))%nat.
Proof.
  induction n as [|n IH]; intros H.
  - simpl. lia.
  - rewrite rounds_S in *.
    pose proof (loop_body_progress _ H).
    apply loop_body_running in H. specialize (IH H). lia.
Qed.

(** The loop is left after at most one round per byte and one more. *)
Lemma loop_finishes file : st (loop_final e file) <> Running.
Proof.
  intros H. apply rounds_progress in H. simpl in H. lia.
Qed.

(** What holds of the loop variables after any number of rounds over the
    body [b]: the bytes handed out so far are [consumed], the running
    total is their number, the temp file holds a prefix of them within the
    limit, and the status tells how far the last chunk got. *)
Inductive loop_inv (b : list byte) (s : loop_state) : Prop :=
| LoopInv (consumed : list byte)
    (inv_split : b = consumed ++ unread s)
    (inv_total : total s = Z.of_nat (length consumed))
    (inv_prefix : written s `prefix_of` consumed)
    (inv_limit : Z.of_nat (length (written s)) <= MAX_FILE_SIZE_BYTES)
    (inv_cap : total s <= MAX_FILE_SIZE_BYTES + chunk_size)
    (inv_status :
       match st s with
       | Running => written s = consumed
       | Broke => written s = consumed /\ unread s = []
       | Raised (HTTPException c d) =>
           c = status.HTTP_413_REQUEST_ENTITY_TOO_LARGE /\ d = too_large_detail
           /\ total s > MAX_FILE_SIZE_BYTES
           /\ exists chunk, consumed = written s ++ chunk
       | Raised (OSError msg) =>
           msg = exc_text e
           /\ (fault_read e <> None /\ read_cancelled e = false
               \/ fault_write e <> None)
           /\ total s <= MAX_FILE_SIZE_BYTES
       | Raised CancelledError =>
           fault_read e <> None /\ read_cancelled e = true
           /\ total s <= MAX_FILE_SIZE_BYTES
       end).

Lemma loop_inv_init file : loop_inv (UploadFile.body file) (loop_init file).
Proof.
  apply (LoopInv _ _ []); simpl; try reflexivity.
  - rewrite MAX_FILE_SIZE_BYTES_val. lia.
  - rewrite MAX_FILE_SIZE_BYTES_val, chunk_size_val. lia.
Qed.

Lemma read_raises_fault i : read_raises e i = true -> fault_read e <> None.
Proof. unfold read_raises. destruct (fault_read e); congruence. Qed.

Lemma write_raises_fault i k : write_raises e i = Some k -> fault_write e <> None.
Proof. unfold write_raises. destruct (fault_write e); congruence. Qed.

Lemma loop_inv_body b s : loop_inv b s -> loop_inv b (loop_body e s).
Proof.
  intros [c Hs Ht Hp Hl Hc Hst].
  destruct (st s) eqn:Es;
    [|rewrite loop_body_left by congruence;
      apply (LoopInv _ _ c); auto; now rewrite Es..].
  unfold loop_body. rewrite Es. subst c.
  destruct (read_raises e (reads s)) eqn:Er.
  { apply read_raises_fault in Er.
    apply (LoopInv _ _ (written s)); simpl; auto.
    unfold read_exception. destruct (read_cancelled e) eqn:Ec.
    - repeat split; [exact Er|lia].
    - split; [reflexivity|]. split; [|lia]. left. now split. }
  pose proof (firstn_skipn (Z.to_nat chunk_size) (unread s)) as Hcut.
  pose proof (firstn_le_length (Z.to_nat chunk_size) (unread s)) as Hlen.
  destruct (firstn (Z.to_nat chunk_size) (unread s)) as [|x chunk] eqn:E.
  { apply (LoopInv _ _ (written s)); simpl; auto.
    - simpl in Hcut. now rewrite Hcut.
    - split; [reflexivity|].
      pose proof chunk_size_pos. destruct (unread s); [now rewrite skipn_nil|].
      destruct (Z.to_nat chunk_size); [lia|discriminate]. }
  assert (Hb : b = (written s ++ x :: chunk) ++ skipn (Z.to_nat chunk_size) (unread s))
    by now rewrite <- app_assoc, Hcut.
  assert (Hn : Z.of_nat (length (written s ++ x :: chunk))
               = total s + Z.of_nat (length (x :: chunk)))
    by (rewrite length_app; lia).
  rewrite chunk_size_val in Hc |- *.
  match goal with
  | |- context [?a >? ?m] => destruct (Z.gtb_spec a m) as [Eg|Eg]
  end.
  { apply (LoopInv _ _ (written s ++ x :: chunk)); simpl in *.
    - exact Hb.
    - lia.
    - now apply prefix_app_r.
    - lia.
    - lia.
    - repeat split; [lia|]. now exists (x :: chunk). }
  destruct (write_raises e (writes s)) as [k|] eqn:Ew.
  - pose proof (prefix_take (x :: chunk) k) as Hw.
    pose proof (prefix_length _ _ Hw) as Hk.
    remember (firstn k (x :: chunk)) as w eqn:Ew'. clear Ew'.
    apply (LoopInv _ _ (written s ++ x :: chunk)); simpl in *.
    + exact Hb.
    + lia.
    + now apply prefix_app.
    + rewrite length_app. lia.
    + lia.
    + split; [reflexivity|]. split; [|lia]. right. eapply write_raises_fault, Ew.
  - apply (LoopInv _ _ (written s ++ x :: chunk)); simpl in *.
    + exact Hb.
    + lia.
    + reflexivity.
    + lia.
    + lia.
    + reflexivity.
Qed.

Lemma loop_inv_rounds file n :
  loop_inv (UploadFile.body file) (rounds e n (loop_init file)).
Proof.
  induction n as [|n IH]; [apply loop_inv_init|].
  rewrite rounds_S. now apply loop_inv_body.
Qed.

End Loop.

(** More rounds than that change nothing: the bound in [loop_final] is
    immaterial. *)
Lemma loop_final_stable e file n :
  (S (length (UploadFile.body file)) <= n)%nat ->
  rounds e n (loop_init file) = loop_final e file.
Proof.
  intros H. replace n with (S (length (UploadFile.body file))
                            + (n - S (length (UploadFile.body file))))%nat by lia.
  rewrite rounds_add. apply rounds_left, loop_finishes.
Qed.

(** ** How the loop ends *)

Section LoopEnd.
Variables (e : env) (file : UploadFile.t).
Let b := UploadFile.body file.

Lemma loop_final_inv : loop_inv e b (loop_final e file).
Proof. apply loop_inv_rounds. Qed.

(** Leaving by [break]: the whole body was handed out and written. *)
Lemma loop_final_broke :
  st (loop_final e file) = Broke ->
  written (loop_final e file) = b
  /\ total (loop_final e file) = Z.of_nat (length b)
  /\ Z.of_nat (length b) <= MAX_FILE_SIZE_BYTES.
Proof.
  intros E. destruct loop_final_inv as [c Hs Ht Hp Hl Hc Hst].
  rewrite E in Hst. destruct Hst as [Hw Hu].
  rewrite Hu, app_nil_r in Hs. subst c. rewrite Hw in Hl. auto.
Qed.

(** Leaving by an [HTTPException]: it is the 413 one, and the body is
    longer than the limit. *)
Lemma loop_final_http c d :
  st (loop_final e file) = Raised (HTTPException c d) ->
  HTTPException c d = too_large
  /\ total (loop_final e file) > MAX_FILE_SIZE_BYTES
  /\ Z.of_nat (length b) > MAX_FILE_SIZE_BYTES.
Proof.
  intros E. destruct loop_final_inv as [k Hs Ht Hp Hl Hc Hst].
  rewrite E in Hst. destruct Hst as (-> & -> & Hgt & _).
  repeat split; [assumption|].
  rewrite Hs, length_app. lia.
Qed.

Lemma loop_final_oserror msg :
  st (loop_final e file) = Raised (OSError msg) ->
  msg = exc_text e /\ (fault_read e <> None \/ fault_write e <> None).
Proof.
  intros E. destruct loop_final_inv as [k Hs Ht Hp Hl Hc Hst].
  rewrite E in Hst. tauto.
Qed.

(** Leaving by a cancellation: it struck at the read chosen to fail. *)
Lemma loop_final_cancelled :
  st (loop_final e file) = Raised CancelledError ->
  fault_read e <> None /\ read_cancelled e = true.
Proof.
  intros E. destruct loop_final_inv as [k Hs Ht Hp Hl Hc Hst].
  rewrite E in Hst. tauto.
Qed.

(** A read that raises an [OSError] was not cancelled. *)
Lemma loop_final_not_cancelled msg :
  st (loop_final e file) = Raised (OSError msg) ->
  read_cancelled e = false \/ fault_write e <> None.
Proof.
  intros E. destruct loop_final_inv as [k Hs Ht Hp Hl Hc Hst].
  rewrite E in Hst. tauto.
Qed.

Lemma loop_final_within :
  fault_read e = None -> fault_write e = None ->
  Z.of_nat (length b) <= MAX_FILE_SIZE_BYTES ->
  st (loop_final e file) = Broke.
Proof.
  intros Hr Hw Hle. pose proof (loop_finishes e file) as Hfin.
  destruct (st (loop_final e file)) as [| |[c d|msg|]] eqn:E.
  - congruence.
  - reflexivity.
  - apply loop_final_http in E. lia.
  - apply loop_final_oserror in E. destruct E as [_ [?|?]]; congruence.
  - apply loop_final_cancelled in E. destruct E; congruence.
Qed.

Lemma loop_final_beyond :
  fault_read e = None -> fault_write e = None ->
  Z.of_nat (length b) > MAX_FILE_SIZE_BYTES ->
  st (loop_final e file) = Raised too_large.
Proof.
  intros Hr Hw Hgt. pose proof (loop_finishes e file) as Hfin.
  destruct (st (loop_final e file)) as [| |[c d|msg|]] eqn:E.
  - congruence.
  - apply loop_final_broke in E. lia.
  - apply loop_final_http in E. now destruct E as [-> _].
  - apply loop_final_oserror in E. destruct E as [_ [?|?]]; congruence.
  - apply loop_final_cancelled in E. destruct E; congruence.
Qed.

End LoopEnd.

(** ** The file system after [_enforce_file_size] and [upload_video] *)

(** The cleanup removes the file, unless the removal raises. *)
Lemma remove_if_exists_delete e p (fs : filesystem) :
  fault_remove e = false -> Os.remove_if_exists e p fs = delete p fs.
Proof.
  intros H. unfold Os.remove_if_exists. rewrite H.
  destruct (fs !! p) eqn:E; [reflexivity|].
  symmetry. now apply delete_id.
Qed.

Lemma remove_staged e p content (fs : filesystem) :
  Os.remove_if_exists e p (<[p := content]> fs)
  = if fault_remove e then <[p := content]> fs else delete p fs.
Proof.
  unfold Os.remove_if_exists. rewrite lookup_insert_eq.
  destruct (fault_remove e); [reflexivity|]. apply delete_insert_eq.
Qed.

Lemma remove_raises_staged e p content (fs : filesystem) :
  Os.remove_raises e p (<[p := content]> fs) = fault_remove e.
Proof. unfold Os.remove_raises. now rewrite lookup_insert_eq. Qed.


Section Enforce.
Variables (e : env) (fs : filesystem) (file : UploadFile.t).
Let b := UploadFile.body file.
Let tmp := tmp_path_of e.

Lemma enforce_return t p fs1 :
  _enforce_file_size e fs file = (Return (t, p), fs1) ->
  p = tmp /\ t = Z.of_nat (length b) /\ t <= MAX_FILE_SIZE_BYTES
  /\ fs1 = <[tmp := b]> fs.
Proof.
  unfold _enforce_file_size. destruct (fault_open e); [congruence|].
  destruct (st (loop_final e file)) as [| |[c d|msg|]] eqn:E; try congruence.
  apply loop_final_broke in E. destruct E as (Hw & Ht & Hle).
  intros [= <- <- <-]. fold b in Hw, Ht, Hle. rewrite Hw, Ht. auto.
Qed.

(** The ways [_enforce_file_size] raises: [open] failed; the limit was
    passed; a read or a write failed; the read was cancelled. In the first
    three the cleanup ran, and where it failed on the way of the 413 its
    error is the one raised. *)
Lemma enforce_raise ex fs1 :
  _enforce_file_size e fs file = (Raise ex, fs1) ->
  fault_open e = true
  /\ ex = receive_failed (exc_text e)
  /\ fs1 = Os.remove_if_exists e tmp fs
  \/ fault_open e = false
     /\ (Z.of_nat (length b) > MAX_FILE_SIZE_BYTES
         /\ ex = (if fault_remove e then OSError (exc_text e) else too_large)
         /\ fs1 = (if fault_remove e
                   then <[tmp := written (loop_final e file)]> fs
                   else delete tmp fs)
         \/ (fault_read e <> None \/ fault_write e <> None)
            /\ ex = receive_failed (exc_text e)
            /\ fs1 = (if fault_remove e
                      then <[tmp := written (loop_final e file)]> fs
                      else delete tmp fs)
         \/ (fault_read e <> None /\ read_cancelled e = true)
            /\ ex = CancelledError
            /\ fs1 = <[tmp := written (loop_final e file)]> fs).
Proof.
  unfold _enforce_file_size. destruct (fault_open e).
  { intros [= <- <-]. left. auto. }
  right. split; [reflexivity|]. revert H.
  destruct (st (loop_final e file)) as [| |[c d|msg|]] eqn:E; try congruence;
    intros [= <- <-]; rewrite ?remove_staged, ?remove_raises_staged.
  - apply loop_final_http in E. destruct E as (-> & _ & Hgt). left.
    destruct (fault_remove e); auto.
  - apply loop_final_oserror in E. destruct E as [-> Hf]. right. left. auto.
  - apply loop_final_cancelled in E. right. right. auto.
Qed.

Lemma enforce_returns_or_raises :
  fst (_enforce_file_size e fs file) <> Diverge.
Proof.
  unfold _enforce_file_size. destruct (fault_open e); [simpl; congruence|].
  pose proof (loop_finishes e file).
  destruct (st (loop_final e file)) as [| |[c d|msg|]]; simpl; congruence.
Qed.

Lemma enforce_within :
  fault_open e = false -> fault_read e = None -> fault_write e = None ->
  Z.of_nat (length b) <= MAX_FILE_SIZE_BYTES ->
  _enforce_file_size e fs file
  = (Return (Z.of_nat (length b), tmp), <[tmp := b]> fs).
Proof.
  intros Ho Hr Hw Hle. unfold _enforce_file_size. rewrite Ho.
  pose proof (loop_final_within e file Hr Hw Hle) as E. rewrite E.
  apply loop_final_broke in E. destruct E as (-> & -> & _). reflexivity.
Qed.

Lemma enforce_beyond :
  fault_open e = false -> fault_read e = None -> fault_write e = None ->
  fault_remove e = false ->
  Z.of_nat (length b) > MAX_FILE_SIZE_BYTES ->
  _enforce_file_size e fs file = (Raise too_large, delete tmp fs).
Proof.
  intros Ho Hr Hw Hrm Hgt. unfold _enforce_file_size. rewrite Ho.
  rewrite (loop_final_beyond e file Hr Hw Hgt). unfold too_large.
  now rewrite remove_staged, remove_raises_staged, Hrm.
Qed.

End Enforce.

Section Upload.
Variables (e : env) (fs : filesystem) (file : UploadFile.t).
Let b := UploadFile.body file.
Let tmp := tmp_path_of e.
Let dest := dest_path_of e file.

Lemma upload_return r fs' :
  upload_video e fs (Some file) = (Return r, fs') ->
  r = response_of e file
  /\ Z.of_nat (length b) <= MAX_FILE_SIZE_BYTES
  /\ fault_replace e = false
  /\ fs' = <[dest := b]> (delete tmp fs).
Proof.
  unfold upload_video. cbv zeta.
  destruct (_enforce_file_size e fs file) as [[[t p]|ex|] fs1] eqn:E;
    [|congruence..].
  apply enforce_return in E. destruct E as (-> & -> & Hle & ->).
  unfold Os.replace. destruct (fault_replace e); [congruence|].
  rewrite lookup_insert_eq. intros [= <- <-].
  now rewrite delete_insert_eq.
Qed.

(** The ways [upload_video] raises on a request with a file part: those of
    [_enforce_file_size], and a failed [os.replace], after which the cleanup
    ran on the whole body staged at the temp path. *)
Lemma upload_raise ex fs' :
  upload_video e fs (Some file) = (Raise ex, fs') ->
  fault_open e = true
  /\ ex = receive_failed (exc_text e)
  /\ fs' = Os.remove_if_exists e tmp fs
  \/ fault_open e = false
     /\ (Z.of_nat (length b) > MAX_FILE_SIZE_BYTES
         /\ ex = (if fault_remove e then OSError (exc_text e) else too_large)
         /\ fs' = (if fault_remove e
                   then <[tmp := written (loop_final e file)]> fs
                   else delete tmp fs)
         \/ (fault_read e <> None \/ fault_write e <> None)
            /\ ex = receive_failed (exc_text e)
            /\ fs' = (if fault_remove e
                      then <[tmp := written (loop_final e file)]> fs
                      else delete tmp fs)
         \/ (fault_read e <> None /\ read_cancelled e = true)
            /\ ex = CancelledError
            /\ fs' = <[tmp := written (loop_final e file)]> fs
         \/ (fault_replace e = true
             /\ Z.of_nat (length b) <= MAX_FILE_SIZE_BYTES
             /\ written (loop_final e file) = b)
            /\ ex = save_failed (exc_text e)
            /\ fs' = (if fault_remove e
                      then <[tmp := written (loop_final e file)]> fs
                      else delete tmp fs)).
Proof.
  unfold upload_video. cbv zeta.
  destruct (_enforce_file_size e fs file) as [[[t p]|ex1|] fs1] eqn:E;
    [| |congruence].
  - pose proof E as Hret. apply enforce_return in Hret.
    destruct Hret as (-> & -> & Hle & ->).
    unfold _enforce_file_size in E.
    destruct (fault_open e) eqn:Ho; [congruence|].
    destruct (st (loop_final e file)) as [| |[c d|msg|]] eqn:Est;
      try congruence.
    apply loop_final_broke in Est. destruct Est as (Hw & _ & _).
    unfold Os.replace. destruct (fault_replace e) eqn:Hp.
    + intros [= <- <-]. rewrite remove_staged, Hw. right.
      split; [reflexivity|]. do 3 right. auto.
    + rewrite lookup_insert_eq. congruence.
  - apply enforce_raise in E. intros [= <- <-]. tauto.
Qed.

Lemma upload_returns_or_raises file' :
  fst (upload_video e fs file') <> Diverge.
Proof.
  destruct file' as [f|]; [|simpl; congruence].
  unfold upload_video. cbv zeta.
  pose proof (enforce_returns_or_raises e fs f) as H.
  destruct (_enforce_file_size e fs f) as [[[t p]|ex1|] fs1]; simpl in *;
    [|congruence..].
  destruct (Os.replace _ _ _ _); simpl; congruence.
Qed.

Lemma upload_within :
  no_faults e -> Z.of_nat (length b) <= MAX_FILE_SIZE_BYTES ->
  upload_video e fs (Some file)
  = (Return (response_of e file), <[dest := b]> (delete tmp fs)).
Proof.
  intros (Ho & Hr & Hw & Hp & _) Hle. unfold upload_video. cbv zeta.
  rewrite (enforce_within e fs file Ho Hr Hw Hle).
  unfold Os.replace. rewrite Hp, lookup_insert_eq, delete_insert_eq.
  reflexivity.
Qed.

Lemma upload_beyond :
  no_faults e -> Z.of_nat (length b) > MAX_FILE_SIZE_BYTES ->
  upload_video e fs (Some file) = (Raise too_large, delete tmp fs).
Proof.
  intros (Ho & Hr & Hw & Hp & Hrm) Hgt. unfold upload_video. cbv zeta.
  now rewrite (enforce_beyond e fs file Ho Hr Hw Hrm Hgt).
Qed.

End Upload.

Lemma length_file_of_length n :
  0 <= n -> Z.of_nat (length (UploadFile.body (file_of_length n))) = n.
Proof.
  intros H. change (UploadFile.body (file_of_length n)) with (body_of_length n).
  unfold body_of_length. rewrite repeat_length. now apply Z2Nat.id.
Qed.

Lemma length_file_at_limit :
  Z.of_nat (length (UploadFile.body file_at_limit)) = MAX_FILE_SIZE_BYTES.
Proof. apply length_file_of_length. rewrite MAX_FILE_SIZE_BYTES_val. lia. Qed.

Lemma length_file_over_limit :
  Z.of_nat (length (UploadFile.body file_over_limit)) = MAX_FILE_SIZE_BYTES + 1.
Proof. apply length_file_of_length. rewrite MAX_FILE_SIZE_BYTES_val. lia. Qed.

Lemma no_faults_env0 : no_faults env0.
Proof. repeat split. Qed.

(** ** Properties stated by the specification *)

(** C1 (size boundary). With no I/O fault, a body of exactly
    [MAX_FILE_SIZE_BYTES] bytes is stored and reported with that size; a body
    of one byte more makes the call raise the 413 [HTTPException], after
    which the temp path holds no file and every other path of the directory
    is as before (so a directory that had no file at the temp path is
    unchanged). *)
Theorem upload_size_boundary (e : env) (fs : filesystem)
        (at_limit over_limit : UploadFile.t) :
  no_faults e ->
  Z.of_nat (length (UploadFile.body at_limit)) = MAX_FILE_SIZE_BYTES ->
  Z.of_nat (length (UploadFile.body over_limit)) = MAX_FILE_SIZE_BYTES + 1 ->
  (exists r fs',
      upload_video e fs (Some at_limit) = (Return r, fs')
      /\ UploadResponse.size_bytes r = MAX_FILE_SIZE_BYTES
      /\ fs' !! dest_path_of e at_limit = Some (UploadFile.body at_limit))
  /\ (exists fs',
         upload_video e fs (Some over_limit)
         = (Raise (HTTPException 413 too_large_detail), fs')
         /\ fs' !! tmp_path_of e = None
         /\ (forall p, p <> tmp_path_of e -> fs' !! p = fs !! p)
         /\ (fs !! tmp_path_of e = None -> fs' = fs)).
Proof.
  intros Hnf Hat Hover. split.
  - eexists _, _. rewrite upload_within by (assumption || lia).
    split; [reflexivity|]. split; [exact Hat|]. apply lookup_insert_eq.
  - eexists. rewrite upload_beyond by (assumption || lia).
    split; [reflexivity|]. split; [apply lookup_delete_eq|].
    split; [intros p Hp; now apply lookup_delete_ne|].
    apply delete_id.
Qed.

Lemma upload_size_boundary_witness :
  (exists r fs',
      upload_video env0 ∅ (Some file_at_limit) = (Return r, fs')
      /\ UploadResponse.size_bytes r = MAX_FILE_SIZE_BYTES
      /\ fs' !! dest_path_of env0 file_at_limit = Some (UploadFile.body file_at_limit))
  /\ (exists fs',
         upload_video env0 ∅ (Some file_over_limit)
         = (Raise (HTTPException 413 too_large_detail), fs')
         /\ fs' !! tmp_path_of env0 = None
         /\ (forall p, p <> tmp_path_of env0 -> fs' !! p = (∅ : filesystem) !! p)
         /\ ((∅ : filesystem) !! tmp_path_of env0 = None -> fs' = ∅)).
Proof.
  apply (upload_size_boundary env0 ∅ file_at_limit file_over_limit).
  - exact no_faults_env0.
  - exact length_file_at_limit.
  - exact length_file_over_limit.
Defined.




(** The write that failed had put two bytes into the temp file. *)
Example partial_write_was_staged :
  written (loop_final env_write_fails sample_file) = [x01; x02]
  /\ st (loop_final env_write_fails sample_file)
     = Raised (OSError "No space left on device").
Proof. vm_compute. split; reflexivity. Qed.

Example rename_failure_removes_temp :
  upload_video env_replace_fails ∅ (Some sample_file)
  = (Raise (save_failed "Permission denied"), ∅).
Proof. vm_compute. reflexivity. Qed.

(** C4 (content fidelity). With no I/O fault, a body of at most
    [MAX_FILE_SIZE_BYTES] bytes is accepted; the file stored under
    [saved_as] in the upload directory holds exactly the body, [size_bytes]
    is its length, and after every round of the loop the temp file followed
    by the unread bytes is the body (chunks are appended in the order
    read). *)
Theorem upload_content_fidelity (e : env) (fs : filesystem) (file : UploadFile.t) :
  no_faults e ->
  Z.of_nat (length (UploadFile.body file)) <= MAX_FILE_SIZE_BYTES ->
  (exists r fs',
      upload_video e fs (Some file) = (Return r, fs')
      /\ fs' !! OsPath.join (UPLOAD_DIR e) (UploadResponse.saved_as r)
         = Some (UploadFile.body file)
      /\ UploadResponse.size_bytes r = Z.of_nat (length (UploadFile.body file)))
  /\ (forall n, written (rounds e n (loop_init file))
                ++ unread (rounds e n (loop_init file)) = UploadFile.body file).
Proof.
  intros Hnf Hle. split.
  - eexists _, _. rewrite upload_within by assumption.
    split; [reflexivity|]. split; [apply lookup_insert_eq|reflexivity].
  - intros n. destruct (loop_inv_rounds e file n) as [c Hs Ht Hp Hl Hc Hst].
    destruct Hnf as (_ & Hr & Hw & _).
    destruct (st (rounds e n (loop_init file))) as [| |[k d|msg|]].
    + now rewrite Hst.
    + destruct Hst as [-> _]. now rewrite Hs.
    + destruct Hst as (_ & _ & Hgt & _).
      rewrite Hs, length_app in Hle. lia.
    + destruct Hst as (_ & [[? _]|?] & _); congruence.
    + destruct Hst as (? & _); congruence.
Qed.

Lemma upload_content_fidelity_witness :
  (exists r fs',
      upload_video env0 ∅ (Some sample_file) = (Return r, fs')
      /\ fs' !! OsPath.join (UPLOAD_DIR env0) (UploadResponse.saved_as r)
         = Some (UploadFile.body sample_file)
      /\ UploadResponse.size_bytes r
         = Z.of_nat (length (UploadFile.body sample_file)))
  /\ (forall n, written (rounds env0 n (loop_init sample_file))
                ++ unread (rounds env0 n (loop_init sample_file))
                = UploadFile.body sample_file).
Proof.
  apply (upload_content_fidelity env0 ∅ sample_file).
  - exact no_faults_env0.
  - rewrite MAX_FILE_SIZE_BYTES_val. simpl. lia.
Defined.

Lemma enforce_return_state e fs file t p fs1 :
  _enforce_file_size e fs file = (Return (t, p), fs1) ->
  st (loop_final e file) = Broke /\ total (loop_final e file) = t.
Proof.
  unfold _enforce_file_size. destruct (fault_open e); [congruence|].
  destruct (st (loop_final e file)) as [| |[c d|msg|]]; try congruence.
  now intros [= <- _ _].
Qed.

(** C6 (stored size within the limit). A call that returns a response has
    left the loop by [break] with a running total of at most
    [MAX_FILE_SIZE_BYTES]; that total is the response's [size_bytes] and the
    length of the file found under [saved_as] in the upload directory. *)
Theorem stored_file_within_limit (e : env) (fs : filesystem)
        (file : option UploadFile.t) (r : UploadResponse.t) (fs' : filesystem) :
  upload_video e fs file = (Return r, fs') ->
  UploadResponse.size_bytes r <= MAX_FILE_SIZE_BYTES
  /\ (exists f, file = Some f
                /\ st (loop_final e f) = Broke
                /\ total (loop_final e f) = UploadResponse.size_bytes r)
  /\ (exists content,
         fs' !! OsPath.join (UploadResponse.upload_dir r) (UploadResponse.saved_as r)
         = Some content
         /\ Z.of_nat (length content) = UploadResponse.size_bytes r).
Proof.
  destruct file as [f|]; [|simpl; congruence].
  intros H. pose proof H as Hret. apply upload_return in Hret.
  destruct Hret as (-> & Hle & _ & ->). simpl.
  split; [exact Hle|]. split.
  - exists f. split; [reflexivity|].
    revert H. unfold upload_video. cbv zeta.
    destruct (_enforce_file_size e fs f) as [[[t p]|ex|] fs1] eqn:E;
      [|congruence..].
    intros _. pose proof (enforce_return_state _ _ _ _ _ _ E) as [Hb Ht].
    apply enforce_return in E. destruct E as (_ & -> & _).
    now split.
  - exists (UploadFile.body f). split; [apply lookup_insert_eq|reflexivity].
Qed.

Lemma stored_file_within_limit_witness :
  UploadResponse.size_bytes sample_response <= MAX_FILE_SIZE_BYTES
  /\ (exists f, Some sample_file = Some f
                /\ st (loop_final env0 f) = Broke
                /\ total (loop_final env0 f) = UploadResponse.size_bytes sample_response)
  /\ (exists content,
         snd (upload_video env0 ∅ (Some sample_file))
           !! OsPath.join (UploadResponse.upload_dir sample_response)
                (UploadResponse.saved_as sample_response)
         = Some content
         /\ Z.of_nat (length content) = UploadResponse.size_bytes sample_response).
Proof.
  apply (stored_file_within_limit env0 ∅ (Some sample_file) sample_response
           (snd (upload_video env0 ∅ (Some sample_file)))).
  rewrite (surjective_pairing (upload_video env0 ∅ (Some sample_file))) at 1.
  apply (f_equal2 pair); [vm_compute; reflexivity | reflexivity].
Defined.

Lemma loop_final_empty e file :
  fault_read e = None -> UploadFile.body file = [] ->
  loop_final e file
  = {| unread := []; total := 0; written := []; reads := 1; writes := 0;
       st := Broke |}.
Proof.
  intros Hr Hb. unfold loop_final, rounds, loop_init. rewrite Hb. simpl.
  unfold loop_body, read_raises. simpl. rewrite Hr, firstn_nil, skipn_nil.
  reflexivity.
Qed.

(** C7 (zero-byte upload). With no I/O fault and an empty body, the first
    read returns the empty chunk, the loop breaks with [total = 0] and
    nothing written, [_enforce_file_size] returns [(0, tmp_path)] leaving an
    empty temp file, and [upload_video] publishes it: the response has
    [size_bytes = 0] and the final path holds an empty file. *)
Theorem upload_zero_bytes (e : env) (fs : filesystem) (file : UploadFile.t) :
  no_faults e ->
  UploadFile.body file = [] ->
  loop_final e file
  = {| unread := []; total := 0; written := []; reads := 1; writes := 0;
       st := Broke |}
  /\ _enforce_file_size e fs file
     = (Return (0, tmp_path_of e), <[tmp_path_of e := []]> fs)
  /\ (exists r fs',
         upload_video e fs (Some file) = (Return r, fs')
         /\ UploadResponse.size_bytes r = 0
         /\ fs' !! OsPath.join (UPLOAD_DIR e) (UploadResponse.saved_as r) = Some []).
Proof.
  intros Hnf Hb. pose proof Hnf as (Ho & Hr & Hw & Hp & _).
  assert (Hle : Z.of_nat (length (UploadFile.body file)) <= MAX_FILE_SIZE_BYTES)
    by (rewrite Hb, MAX_FILE_SIZE_BYTES_val; simpl; lia).
  split; [now apply loop_final_empty|]. split.
  - rewrite enforce_within by assumption. now rewrite Hb.
  - eexists _, _. rewrite upload_within by assumption.
    split; [reflexivity|]. simpl. rewrite Hb. split; [reflexivity|].
    apply lookup_insert_eq.
Qed.

Lemma upload_zero_bytes_witness :
  loop_final env0 empty_file
  = {| unread := []; total := 0; written := []; reads := 1; writes := 0;
       st := Broke |}
  /\ _enforce_file_size env0 ∅ empty_file
     = (Return (0, tmp_path_of env0), <[tmp_path_of env0 := []]> ∅)
  /\ (exists r fs',
         upload_video env0 ∅ (Some empty_file) = (Return r, fs')
         /\ UploadResponse.size_bytes r = 0
         /\ fs' !! OsPath.join (UPLOAD_DIR env0) (UploadResponse.saved_as r)
            = Some []).
Proof.
  apply (upload_zero_bytes env0 ∅ empty_file).
  - exact no_faults_env0.
  - reflexivity.
Defined.

(** Scenario A: the empty upload named "empty.mp4" ends up under a name
    with the extension ".mp4". *)
Example upload_empty_mp4 :
  fst (upload_video env0 ∅ (Some empty_file))
  = Return {| UploadResponse.filename := "empty.mp4";
              UploadResponse.saved_as :=
                "20250101T120000Z_fedcba9876543210fedcba9876543210.mp4";
              UploadResponse.size_bytes := 0;
              UploadResponse.content_type := Some "video/mp4";
              UploadResponse.upload_dir := "./upload" |}
  /\ snd (upload_video env0 ∅ (Some empty_file))
       !! "./upload/20250101T120000Z_fedcba9876543210fedcba9876543210.mp4"
     = Some []
  /\ snd (upload_video env0 ∅ (Some empty_file)) !! tmp_path_of env0 = None.
Proof. vm_compute. repeat split. Qed.

(** C3 (early abort). After any number [n] of rounds the running total is
    the number of bytes handed out by [read] so far. If it exceeds
    [MAX_FILE_SIZE_BYTES], the loop has been left by the 413 exception, the
    total was within the limit before the last chunk was counted, and no
    further round changes anything: the count of [read] calls and the unread
    rest of the stream stay as they are. *)
Theorem no_read_after_overflow (e : env) (file : UploadFile.t) (n k : nat) :
  let s := rounds e n (loop_init file) in
  total s > MAX_FILE_SIZE_BYTES ->
  total s = Z.of_nat (length (UploadFile.body file)) - Z.of_nat (length (unread s))
  /\ st s = Raised (HTTPException 413 too_large_detail)
  /\ total s <= MAX_FILE_SIZE_BYTES + chunk_size
  /\ rounds e (n + k) (loop_init file) = s
  /\ reads (rounds e (n + k) (loop_init file)) = reads s
  /\ unread (rounds e (n + k) (loop_init file)) = unread s.
Proof.
  intros s Hgt. subst s.
  destruct (loop_inv_rounds e file n) as [c Hs Ht Hp Hl Hc Hst].
  assert (Hraised : st (rounds e n (loop_init file)) = Raised too_large).
  { pose proof (prefix_length _ _ Hp) as Hlen.
    destruct (st (rounds e n (loop_init file))) as [| |[cd d|msg|]].
    - subst c. lia.
    - destruct Hst as [<- _]. lia.
    - now destruct Hst as (-> & -> & _).
    - destruct Hst as (_ & _ & Hle). lia.
    - destruct Hst as (_ & _ & Hle). lia. }
  assert (Hstay : rounds e (n + k) (loop_init file) = rounds e n (loop_init file)).
  { rewrite rounds_add. apply rounds_left. rewrite Hraised. discriminate. }
  split; [rewrite Hs, length_app; lia|].
  split; [exact Hraised|]. split; [exact Hc|].
  now rewrite Hstay.
Qed.

Lemma total_over_limit :
  total (rounds env0 overflow_rounds (loop_init file_over_limit))
  > MAX_FILE_SIZE_BYTES.
Proof.
  change (rounds env0 overflow_rounds (loop_init file_over_limit))
    with (loop_final env0 file_over_limit).
  assert (E : st (loop_final env0 file_over_limit) = Raised too_large).
  { apply loop_final_beyond.
    - reflexivity.
    - reflexivity.
    - rewrite length_file_over_limit. lia. }
  apply loop_final_http in E. tauto.
Qed.

Lemma no_read_after_overflow_witness :
  total (rounds env0 overflow_rounds (loop_init file_over_limit))
  = Z.of_nat (length (UploadFile.body file_over_limit))
    - Z.of_nat (length (unread (rounds env0 overflow_rounds (loop_init file_over_limit))))
  /\ st (rounds env0 overflow_rounds (loop_init file_over_limit))
     = Raised (HTTPException 413 too_large_detail)
  /\ total (rounds env0 overflow_rounds (loop_init file_over_limit))
     <= MAX_FILE_SIZE_BYTES + chunk_size
  /\ rounds env0 (overflow_rounds + 1) (loop_init file_over_limit)
     = rounds env0 overflow_rounds (loop_init file_over_limit)
  /\ reads (rounds env0 (overflow_rounds + 1) (loop_init file_over_limit))
     = reads (rounds env0 overflow_rounds (loop_init file_over_limit))
  /\ unread (rounds env0 (overflow_rounds + 1) (loop_init file_over_limit))
     = unread (rounds env0 overflow_rounds (loop_init file_over_limit)).
Proof.
  apply (no_read_after_overflow env0 file_over_limit overflow_rounds 1).
  exact total_over_limit.
Defined.

(** C10 (nothing beyond the limit reaches the disk). After any number of
    rounds the temp file on disk holds at most [MAX_FILE_SIZE_BYTES] bytes
    and never more than the running total; and when the running total
    exceeds the limit, the total counts a non-empty chunk that lies between
    the temp file's content and the unread rest of the body, so that chunk
    was counted and not written. *)
Theorem written_never_exceeds_limit (e : env) (fs : filesystem)
        (file : UploadFile.t) (n : nat) :
  let s := rounds e n (loop_init file) in
  disk_during e fs file n !! tmp_path_of e = Some (written s)
  /\ Z.of_nat (length (written s)) <= MAX_FILE_SIZE_BYTES
  /\ Z.of_nat (length (written s)) <= total s
  /\ (total s > MAX_FILE_SIZE_BYTES ->
      exists chunk,
        chunk <> []
        /\ written s ++ chunk ++ unread s = UploadFile.body file
        /\ total s = Z.of_nat (length (written s)) + Z.of_nat (length chunk)).
Proof.
  intros s. subst s.
  destruct (loop_inv_rounds e file n) as [c Hs Ht Hp Hl Hc Hst].
  pose proof (prefix_length _ _ Hp) as Hlen.
  split; [apply lookup_insert_eq|].
  split; [exact Hl|]. split; [lia|]. intros Hgt.
  destruct (st (rounds e n (loop_init file))) as [| |[cd d|msg|]].
  - subst c. lia.
  - destruct Hst as [<- _]. lia.
  - destruct Hst as (_ & _ & _ & chunk & Hchunk). exists chunk.
    rewrite Hchunk, length_app in Ht. split.
    + intros ->. simpl in Ht. lia.
    + split; [now rewrite Hs, Hchunk, <- app_assoc|lia].
  - destruct Hst as (_ & _ & Hle). lia.
  - destruct Hst as (_ & _ & Hle). lia.
Qed.

(** ** Strings and [os.path.splitext] *)

Section StringFacts.
Import PyStr.
Variable c : ascii.

Lemma rfind_lower s : -1 <= rfind c s.
Proof.
  induction s as [|x s IH]; simpl; [lia|].
  destruct (0 <=? rfind c s) eqn:E; [lia|]. destruct (Ascii.eqb x c); lia.
Qed.

Lemma rfind_upper s : rfind c s < Z.of_nat (String.length s).
Proof.
  induction s as [|x s IH]; simpl String.length; simpl rfind; [lia|].
  destruct (0 <=? rfind c s) eqn:E; [lia|]. destruct (Ascii.eqb x c); lia.
Qed.

Lemma rfind_contains s : (0 <=? rfind c s) = contains c s.
Proof.
  induction s as [|x s IH]; simpl; [reflexivity|].
  rewrite <- IH. destruct (0 <=? rfind c s) eqn:E.
  - rewrite orb_true_r. apply Z.leb_le in E. apply Z.leb_le. lia.
  - rewrite orb_false_r. now destruct (Ascii.eqb x c).
Qed.

Lemma rfind_drop k s :
  rfind c (drop k s)
  = if Z.of_nat k <=? rfind c s then rfind c s - Z.of_nat k else -1.
Proof.
  revert s. induction k as [|k IH]; intros s.
  - pose proof (rfind_lower s). simpl drop.
    destruct (Z.leb_spec (Z.of_nat 0) (rfind c s)); simpl in *; lia.
  - destruct s as [|x s]; [reflexivity|].
    simpl drop. rewrite IH. simpl rfind.
    pose proof (rfind_lower s).
    destruct (Z.leb_spec 0 (rfind c s)).
    + destruct (Z.leb_spec (Z.of_nat k) (rfind c s));
        destruct (Z.leb_spec (Z.of_nat (S k)) (rfind c s + 1)); lia.
    + destruct (Z.leb_spec (Z.of_nat k) (rfind c s)); [lia|].
      destruct (Ascii.eqb x c);
        match goal with
        | |- context [Z.of_nat (S k) <=? ?v] =>
            destruct (Z.leb_spec (Z.of_nat (S k)) v)
        end; lia.
Qed.

Lemma contains_lstrip s : contains c s = false -> contains c (lstrip c s) = false.
Proof.
  induction s as [|x s IH]; simpl; [reflexivity|].
  destruct (Ascii.eqb x c) eqn:E; simpl; [discriminate|].
  now rewrite E.
Qed.

(** Before the last [c] of [s] there are only [c]s exactly when nothing is
    left of that [c] once the leading [c]s are stripped. *)
Lemma all_eq_before_last s :
  0 <= rfind c s ->
  all_eq c (take (Z.to_nat (rfind c s)) s) = negb (contains c (lstrip c s)).
Proof.
  induction s as [|x s IH]; simpl rfind; [lia|].
  pose proof (rfind_lower s) as Hlow. pose proof (rfind_contains s) as Hc.
  destruct (Z.leb_spec 0 (rfind c s)) as [Hge|Hlt].
  - intros _. replace (Z.to_nat (rfind c s + 1)) with (S (Z.to_nat (rfind c s))) by lia.
    simpl. destruct (Ascii.eqb x c) eqn:E; simpl.
    + now apply IH.
    + rewrite E. simpl. now rewrite <- Hc.
  - destruct (Ascii.eqb x c) eqn:E; [|lia]. intros _. simpl. rewrite E.
    rewrite contains_lstrip; [reflexivity|]. now rewrite <- Hc.
Qed.

Lemma drop_next k s x rest : drop k s = String x rest -> drop (S k) s = rest.
Proof.
  revert s. induction k as [|k IH]; intros [|y s] H; simpl in H;
    try discriminate.
  - now injection H as _ ->.
  - change (drop (S (S k)) (String y s)) with (drop (S k) s). now apply IH.
Qed.

Lemma drop_in_range k s :
  (k < String.length s)%nat -> exists x rest, drop k s = String x rest.
Proof.
  revert s. induction k as [|k IH]; intros [|y s]; simpl; try lia.
  - eauto.
  - intros H. apply IH. lia.
Qed.

Lemma skip_leading_dots_spec p n : forall fi,
  (fi + n < String.length p)%nat ->
  OsPath.skip_leading_dots p c (Z.of_nat (fi + n)) (Z.of_nat fi) n
  = if all_eq c (take n (drop fi p)) then None
    else Some (take (fi + n) p, drop (fi + n) p).
Proof.
  induction n as [|n IH]; intros fi Hlen; simpl OsPath.skip_leading_dots.
  - reflexivity.
  - destruct (Z.ltb_spec (Z.of_nat fi) (Z.of_nat (fi + S n))); [|lia].
    destruct (drop_in_range fi p) as (x & rest & E); [lia|].
    unfold slice1. rewrite !Nat2Z.id, E. simpl.
    destruct (Ascii.eqb x c); simpl; [|reflexivity].
    apply drop_next in E. subst rest.
    replace (Z.of_nat fi + 1) with (Z.of_nat (S fi)) by lia.
    replace (fi + S n)%nat with (S fi + n)%nat by lia.
    apply IH. lia.
Qed.

End StringFacts.

Lemma append_cons x s t : String x s +:+ t = String x (s +:+ t).
Proof. reflexivity. Qed.

Lemma take_drop_id n s : PyStr.take n s +:+ PyStr.drop n s = s.
Proof.
  revert s. induction n as [|n IH]; intros [|x s]; simpl; try reflexivity.
  now rewrite append_cons, IH.
Qed.

Lemma contains_app c s t :
  PyStr.contains c (s +:+ t) = PyStr.contains c s || PyStr.contains c t.
Proof.
  induction s as [|x s IH]; [reflexivity|].
  rewrite append_cons. simpl. now rewrite IH, orb_assoc.
Qed.

Lemma digit_char_not_dot d : (d < 16)%N -> Ascii.eqb (PyStr.digit_char d) "." = false.
Proof.
  intros H.
  assert (E : (d = 0 \/ d = 1 \/ d = 2 \/ d = 3 \/ d = 4 \/ d = 5 \/ d = 6
               \/ d = 7 \/ d = 8 \/ d = 9 \/ d = 10 \/ d = 11 \/ d = 12
               \/ d = 13 \/ d = 14 \/ d = 15)%N) by lia.
  repeat destruct E as [E|E]; subst d; reflexivity.
Qed.

Lemma fixed_digits_no_dot base width n :
  (0 < base <= 16)%N ->
  PyStr.contains "." (PyStr.fixed_digits base width n) = false.
Proof.
  intros Hb. revert n. induction width as [|w IH]; intros n;
    [reflexivity|].
  simpl PyStr.fixed_digits. rewrite contains_app, IH. simpl. rewrite digit_char_not_dot; [reflexivity|].
  pose proof (N.mod_lt n base). lia.
Qed.

Lemma strftime_no_dot dt : PyStr.contains "." (strftime dt) = false.
Proof.
  unfold strftime. rewrite !contains_app.
  rewrite !fixed_digits_no_dot by lia. reflexivity.
Qed.

Lemma uuid_hex_no_dot u : PyStr.contains "." (uuid_hex u) = false.
Proof. apply fixed_digits_no_dot. lia. Qed.

(** [os.path.splitext] splits at the last "." exactly when the last path
    component, its leading dots aside, contains a "."; otherwise the
    extension is empty. *)
Lemma splitext_spec p :
  OsPath.splitext p
  = if PyStr.contains "." (PyStr.lstrip "." (OsPath.basename p))
    then Spec.split_at_last_dot p
    else (p, EmptyString).
Proof.
  unfold OsPath.splitext, OsPath._splitext, OsPath.basename,
    Spec.split_at_last_dot, OsPath.extsep.
  set (s := PyStr.rfind OsPath.sep p). set (d := PyStr.rfind "." p).
  pose proof (rfind_lower OsPath.sep p) as Hs. fold s in Hs.
  pose proof (rfind_upper "." p) as Hd. fold d in Hd.
  pose proof (rfind_drop "." (Z.to_nat (s + 1)) p) as Hbase. fold d in Hbase.
  rewrite Z2Nat.id in Hbase by lia.
  set (base := PyStr.drop (Z.to_nat (s + 1)) p) in *.
  destruct (Z.ltb_spec s d) as [Hlt|Hge].
  - destruct (Z.leb_spec (s + 1) d) as [_|?]; [|lia].
    pose proof (all_eq_before_last "." base) as Hall.
    rewrite Hbase in Hall. specialize (Hall ltac:(lia)).
    pose proof (skip_leading_dots_spec "." p (Z.to_nat (d - (s + 1)))
                  (Z.to_nat (s + 1)) ltac:(lia)) as Hloop.
    replace (Z.of_nat (Z.to_nat (s + 1) + Z.to_nat (d - (s + 1)))) with d
      in Hloop by lia.
    replace (Z.to_nat (s + 1) + Z.to_nat (d - (s + 1)))%nat with (Z.to_nat d)
      in Hloop by lia.
    rewrite Z2Nat.id in Hloop by lia. rewrite Hloop. fold base. rewrite Hall.
    destruct (Z.ltb_spec d 0); [lia|].
    now destruct (PyStr.contains "." (PyStr.lstrip "." base)).
  - destruct (Z.leb_spec (s + 1) d) as [?|_]; [lia|].
    rewrite contains_lstrip; [reflexivity|].
    rewrite <- rfind_contains, Hbase. reflexivity.
Qed.

Lemma append_nil_r s : s +:+ "" = s.
Proof. induction s as [|x s IH]; [reflexivity|]. now rewrite append_cons, IH. Qed.

Lemma splitext_no_dot p :
  PyStr.contains "." p = false -> OsPath.splitext p = (p, EmptyString).
Proof.
  intros H. unfold OsPath.splitext, OsPath._splitext, OsPath.extsep.
  pose proof (rfind_lower OsPath.sep p).
  pose proof (rfind_contains "." p) as Hc. rewrite H in Hc.
  apply Z.leb_gt in Hc.
  destruct (Z.ltb_spec (PyStr.rfind OsPath.sep p) (PyStr.rfind "." p));
    [lia|reflexivity].
Qed.

Lemma generated_name_unfold e name :
  _safe_destination_filename e name
  = strftime (utcnow e) +:+ "_" +:+ uuid_hex (uuid_name e)
    +:+ PyStr.lower (snd (OsPath.splitext name)).
Proof.
  unfold _safe_destination_filename. now destruct (OsPath.splitext name).
Qed.

Lemma generated_name_no_dot e name :
  PyStr.contains "." name = false ->
  _safe_destination_filename e name
  = strftime (utcnow e) +:+ "_" +:+ uuid_hex (uuid_name e).
Proof.
  intros H. rewrite generated_name_unfold, splitext_no_dot by exact H.
  simpl. now rewrite append_nil_r.
Qed.

Lemma generated_name_fallback e :
  _safe_destination_filename e "upload.bin"
  = strftime (utcnow e) +:+ "_" +:+ uuid_hex (uuid_name e) +:+ ".bin".
Proof. now rewrite generated_name_unfold. Qed.

(** C5 (name generator), as the code has it. The generated name is
    [<timestamp>_<hex token><extension>] with the base discarded and the
    extension lower-cased, where base and extension are those of
    [os.path.splitext]: base followed by extension is the original name, and
    the split is the one at the last "." exactly when the last path
    component, its leading dots aside, contains a "." - then the result is
    the one the specification describes - and otherwise the extension is
    empty. A name with no "." has an empty extension; "Movie.MP4" gives a
    name ending in ".mp4"; "noext" gives a name with no "." at all. *)
Theorem safe_destination_filename_shape (e : env) (original_name : string) :
  _safe_destination_filename e original_name
  = strftime (utcnow e) +:+ "_" +:+ uuid_hex (uuid_name e)
    +:+ PyStr.lower (snd (OsPath.splitext original_name))
  /\ fst (OsPath.splitext original_name) +:+ snd (OsPath.splitext original_name)
     = original_name
  /\ OsPath.splitext original_name
     = (if PyStr.contains "." (PyStr.lstrip "." (OsPath.basename original_name))
        then Spec.split_at_last_dot original_name
        else (original_name, EmptyString))
  /\ _safe_destination_filename e original_name
     = (if PyStr.contains "." (PyStr.lstrip "." (OsPath.basename original_name))
        then Spec.generate e original_name
        else strftime (utcnow e) +:+ "_" +:+ uuid_hex (uuid_name e))
  /\ (PyStr.contains "." original_name = false ->
      _safe_destination_filename e original_name
      = strftime (utcnow e) +:+ "_" +:+ uuid_hex (uuid_name e))
  /\ _safe_destination_filename e "Movie.MP4"
     = strftime (utcnow e) +:+ "_" +:+ uuid_hex (uuid_name e) +:+ ".mp4"
  /\ _safe_destination_filename e "noext"
     = strftime (utcnow e) +:+ "_" +:+ uuid_hex (uuid_name e)
  /\ PyStr.contains "." (_safe_destination_filename e "noext") = false.
Proof.
  pose proof (generated_name_unfold e) as Hshape.
  pose proof (generated_name_no_dot e) as Hnone.
  split; [apply Hshape|]. split.
  { rewrite splitext_spec.
    destruct (PyStr.contains _ _); [|apply append_nil_r].
    unfold Spec.split_at_last_dot. destruct (_ <? _); [apply append_nil_r|].
    apply take_drop_id. }
  split; [apply splitext_spec|]. split.
  { rewrite Hshape, splitext_spec. unfold Spec.generate.
    destruct (PyStr.contains _ _).
    - now destruct (Spec.split_at_last_dot original_name).
    - simpl. now rewrite append_nil_r. }
  split; [apply Hnone|]. split; [apply Hshape|].
  assert (Hnoext : _safe_destination_filename e "noext"
                   = strftime (utcnow e) +:+ "_" +:+ uuid_hex (uuid_name e))
    by now apply Hnone.
  split; [exact Hnoext|].
  rewrite Hnoext, !contains_app, strftime_no_dot, uuid_hex_no_dot. reflexivity.
Qed.

(** The specification's split at the last "." differs from the code's on a name
    whose only "." leads it, and on a name whose last "." is in a directory
    part. *)
Lemma safe_destination_filename_leading_dot :
  OsPath.splitext ".MP4" = (".MP4", "")
  /\ Spec.split_at_last_dot ".MP4" = ("", ".MP4")
  /\ _safe_destination_filename env0 ".MP4"
     = "20250101T120000Z_fedcba9876543210fedcba9876543210"
  /\ Spec.generate env0 ".MP4"
     = "20250101T120000Z_fedcba9876543210fedcba9876543210.mp4"
  /\ OsPath.splitext "clips.d/intro" = ("clips.d/intro", "")
  /\ Spec.split_at_last_dot "clips.d/intro" = ("clips", ".d/intro").
Proof. vm_compute. repeat split. Qed.

(** ** The response and the request's metadata *)

(** An empty original filename is not what the response reports: its
    [filename] is the generated name. *)
Lemma empty_filename_not_echoed :
  UploadFile.filename file_without_name = Some ""
  /\ fst (upload_video env0 ∅ (Some file_without_name))
     = Return {| UploadResponse.filename :=
                   "20250101T120000Z_fedcba9876543210fedcba9876543210.bin";
                 UploadResponse.saved_as :=
                   "20250101T120000Z_fedcba9876543210fedcba9876543210.bin";
                 UploadResponse.size_bytes := 1;
                 UploadResponse.content_type := Some "video/mp4";
                 UploadResponse.upload_dir := "./upload" |}.
Proof. vm_compute. split; reflexivity. Qed.

(** C8 (the response), as the code has it. A returned response carries the
    original filename when that is present and not empty, and the generated
    name otherwise, in which case the name is generated from "upload.bin";
    [saved_as] is the generated name, [size_bytes] the length of the body,
    [content_type] the declared one when it is present and not empty and
    absent otherwise, [upload_dir] the configured directory. *)
Theorem upload_result_populated (e : env) (fs : filesystem)
        (file : UploadFile.t) (r : UploadResponse.t) (fs' : filesystem) :
  upload_video e fs (Some file) = (Return r, fs') ->
  (forall n, UploadFile.filename file = Some n -> n <> "" ->
             UploadResponse.filename r = n
             /\ UploadResponse.saved_as r = _safe_destination_filename e n)
  /\ (UploadFile.filename file = None \/ UploadFile.filename file = Some "" ->
      UploadResponse.filename r = UploadResponse.saved_as r
      /\ UploadResponse.saved_as r
         = strftime (utcnow e) +:+ "_" +:+ uuid_hex (uuid_name e) +:+ ".bin")
  /\ UploadResponse.size_bytes r = Z.of_nat (length (UploadFile.body file))
  /\ (forall c, UploadFile.content_type file = Some c -> c <> "" ->
                UploadResponse.content_type r = Some c)
  /\ (UploadFile.content_type file = None
      \/ UploadFile.content_type file = Some "" ->
      UploadResponse.content_type r = None)
  /\ UploadResponse.upload_dir r = UPLOAD_DIR e.
Proof.
  intros H. apply upload_return in H. destruct H as (-> & _ & _ & _).
  unfold response_of, final_name_of, declared_content_type. simpl.
  split; [intros n Hn Hne|]. { rewrite Hn. now destruct n. }
  split; [intros Hn|].
  { destruct Hn as [-> | ->]; simpl; split; try reflexivity;
      apply generated_name_fallback. }
  split; [reflexivity|].
  split; [intros c Hc Hne|]. { rewrite Hc. now destruct c. }
  split; [intros Hc|reflexivity].
  now destruct Hc as [-> | ->].
Qed.

Lemma upload_result_populated_witness :
  (forall n, UploadFile.filename sample_file = Some n -> n <> "" ->
             UploadResponse.filename sample_response = n
             /\ UploadResponse.saved_as sample_response
                = _safe_destination_filename env0 n)
  /\ (UploadFile.filename sample_file = None
      \/ UploadFile.filename sample_file = Some "" ->
      UploadResponse.filename sample_response
      = UploadResponse.saved_as sample_response
      /\ UploadResponse.saved_as sample_response
         = strftime (utcnow env0) +:+ "_" +:+ uuid_hex (uuid_name env0) +:+ ".bin")
  /\ UploadResponse.size_bytes sample_response
     = Z.of_nat (length (UploadFile.body sample_file))
  /\ (forall c, UploadFile.content_type sample_file = Some c -> c <> "" ->
                UploadResponse.content_type sample_response = Some c)
  /\ (UploadFile.content_type sample_file = None
      \/ UploadFile.content_type sample_file = Some "" ->
      UploadResponse.content_type sample_response = None)
  /\ UploadResponse.upload_dir sample_response = UPLOAD_DIR env0.
Proof.
  apply (upload_result_populated env0 ∅ sample_file sample_response
           (snd (upload_video env0 ∅ (Some sample_file)))).
  rewrite (surjective_pairing (upload_video env0 ∅ (Some sample_file))) at 1.
  apply (f_equal2 pair); [vm_compute; reflexivity | reflexivity].
Defined.

Lemma enforce_ignores_content_type e fs ct file :
  _enforce_file_size e fs (with_content_type ct file)
  = _enforce_file_size e fs file.
Proof. reflexivity. Qed.

(** A declared but empty content type is reported as absent. *)
Lemma empty_content_type_reported_absent :
  UploadFile.content_type (with_content_type (Some "") sample_file) = Some ""
  /\ fst (upload_video env0 ∅ (Some (with_content_type (Some "") sample_file)))
     = Return {| UploadResponse.filename := "Movie.MP4";
                 UploadResponse.saved_as :=
                   "20250101T120000Z_fedcba9876543210fedcba9876543210.mp4";
                 UploadResponse.size_bytes := 3;
                 UploadResponse.content_type := None;
                 UploadResponse.upload_dir := "./upload" |}.
Proof. vm_compute. split; reflexivity. Qed.

(** C9 (content type is advisory), as the code has it. Two requests that
    differ only in the declared content type leave the same file system and
    have the same outcome, the response's [content_type] field apart; that
    field is the declared value when one is declared and not empty, and
    absent when none or an empty one is declared. *)
Theorem content_type_advisory (e : env) (fs : filesystem) (file : UploadFile.t)
        (ct1 ct2 : option string) :
  snd (upload_video e fs (Some (with_content_type ct1 file)))
  = snd (upload_video e fs (Some (with_content_type ct2 file)))
  /\ erase_content_type (fst (upload_video e fs (Some (with_content_type ct1 file))))
     = erase_content_type (fst (upload_video e fs (Some (with_content_type ct2 file))))
  /\ (forall r,
         fst (upload_video e fs (Some (with_content_type ct1 file))) = Return r ->
         (forall c, ct1 = Some c -> c <> "" ->
                    UploadResponse.content_type r = Some c)
         /\ (ct1 = None \/ ct1 = Some "" -> UploadResponse.content_type r = None)).
Proof.
  unfold upload_video. cbv zeta. rewrite !enforce_ignores_content_type.
  destruct (_enforce_file_size e fs file) as [[[t p]|ex|] fs1];
    [|repeat split; simpl in *; congruence..].
  simpl UploadFile.filename.
  destruct (Os.replace _ _ _ _); [|repeat split; simpl in *; congruence].
  simpl. split; [reflexivity|]. split; [reflexivity|].
  intros r [= <-]. simpl. split.
  - intros c -> Hc. now destruct c.
  - now intros [-> | ->].
Qed.

(** * Further properties of the code *)

(** ** The loop in closed form *)

Section ClosedForm.
Variables (e : env) (file : UploadFile.t).
Let b := UploadFile.body file.
Let c := Z.to_nat chunk_size.

(** As long as no call raises, every chunk read so far held a byte and the
    bytes handed out stay within the limit, [k] rounds have read and written
    the first [k] chunks of the body. *)
Lemma rounds_running k :
  (forall i, (i < k)%nat -> read_raises e i = false /\ write_raises e i = None) ->
  (k * c < length b + c)%nat ->
  Z.of_nat (Nat.min (k * c) (length b)) <= MAX_FILE_SIZE_BYTES ->
  rounds e k (loop_init file)
  = {| unread := drop (k * c) b; total := Z.of_nat (Nat.min (k * c) (length b));
       written := take (k * c) b; reads := k; writes := k; st := Running |}.
Proof.
  pose proof chunk_size_pos as Hc. fold c in Hc.
  induction k as [|k IH]; intros Hok Hne Hle.
  - reflexivity.
  - rewrite rounds_S, IH; [|intros i Hi; apply Hok; lia|lia|lia].
    unfold loop_body. simpl st. simpl reads. simpl unread. simpl total.
    simpl written. simpl writes.
    destruct (Hok k ltac:(lia)) as [-> ->]. fold c.
    assert (Hlen : length (take c (drop (k * c) b))
                   = Nat.min c (length b - k * c))
      by now rewrite length_take, length_drop.
    destruct (take c (drop (k * c) b)) as [|x chunk] eqn:E.
    { simpl in Hlen. lia. }
    replace (Z.of_nat (Nat.min (k * c) (length b)) + Z.of_nat (length (x :: chunk)))
      with (Z.of_nat (Nat.min (S k * c) (length b))) by (rewrite Hlen; lia).
    destruct (Z.gtb_spec (Z.of_nat (Nat.min (S k * c) (length b)))
                MAX_FILE_SIZE_BYTES); [lia|].
    rewrite <- E.
    rewrite drop_drop, take_take_drop.
    replace (k * c + c)%nat with (S k * c)%nat by lia. reflexivity.
Qed.

(** A state that has left the loop is the state the loop ends in. *)
Lemma loop_final_reached n :
  st (rounds e n (loop_init file)) <> Running ->
  loop_final e file = rounds e n (loop_init file).
Proof.
  intros H. destruct (Nat.le_gt_cases n (S (length (UploadFile.body file)))).
  - unfold loop_final.
    replace (S (length (UploadFile.body file)))
      with (n + (S (length (UploadFile.body file)) - n))%nat by lia.
    rewrite rounds_add. now apply rounds_left.
  - symmetry. apply loop_final_stable. lia.
Qed.

End ClosedForm.

Lemma chunk_len_val : Z.of_nat (Z.to_nat chunk_size) = 1048576.
Proof. rewrite chunk_size_val. lia. Qed.

Lemma read_raises_none e i : fault_read e = None -> read_raises e i = false.
Proof. unfold read_raises. now intros ->. Qed.

Lemma write_raises_none e i : fault_write e = None -> write_raises e i = None.
Proof. unfold write_raises. now intros ->. Qed.

Lemma upload_of_oserror e fs file msg :
  fault_open e = false ->
  st (loop_final e file) = Raised (OSError msg) ->
  upload_video e fs (Some file)
  = (Raise (receive_failed msg),
     if fault_remove e
     then <[tmp_path_of e := written (loop_final e file)]> fs
     else delete (tmp_path_of e) fs).
Proof.
  intros Ho Hst. unfold upload_video, _enforce_file_size. cbv zeta.
  now rewrite Ho, Hst, remove_staged.
Qed.

Lemma upload_of_cancelled e fs file :
  fault_open e = false ->
  st (loop_final e file) = Raised CancelledError ->
  upload_video e fs (Some file)
  = (Raise CancelledError,
     <[tmp_path_of e := written (loop_final e file)]> fs).
Proof.
  intros Ho Hst. unfold upload_video, _enforce_file_size. cbv zeta.
  now rewrite Ho, Hst.
Qed.

(** X1 (chunking of an accepted upload). With no failing read or write, a body
    within the limit is read in [ceil (length / chunk_size)] non-empty
    chunks, each written once, followed by the one read that returns the
    empty chunk. *)
Theorem accepted_upload_read_count (e : env) (file : UploadFile.t) :
  fault_read e = None -> fault_write e = None ->
  Z.of_nat (length (UploadFile.body file)) <= MAX_FILE_SIZE_BYTES ->
  st (loop_final e file) = Broke
  /\ Z.of_nat (writes (loop_final e file))
     = (Z.of_nat (length (UploadFile.body file)) + chunk_size - 1) / chunk_size
  /\ reads (loop_final e file) = S (writes (loop_final e file)).
Proof.
  intros Hr Hw Hle.
  pose proof chunk_len_val as Hc. pose proof chunk_size_val as Hcs.
  set (L := Z.of_nat (length (UploadFile.body file))) in *.
  set (q := (L + chunk_size - 1) / chunk_size).
  assert (Hq : chunk_size * q <= L + chunk_size - 1 < chunk_size * q + chunk_size).
  { subst q. rewrite Hcs.
    pose proof (Z.mul_div_le (L + 1048576 - 1) 1048576 ltac:(lia)).
    pose proof (Z.mul_succ_div_gt (L + 1048576 - 1) 1048576 ltac:(lia)). lia. }
  rewrite Hcs in Hq.
  assert (Hq0 : 0 <= q) by (subst L; lia).
  set (k := Z.to_nat q).
  assert (Hk : Z.of_nat (k * Z.to_nat chunk_size) = 1048576 * q)
    by (rewrite Nat2Z.inj_mul, Hc; subst k; lia).
  assert (Hrun := rounds_running e file k
                    (fun i _ => conj (read_raises_none e i Hr)
                                     (write_raises_none e i Hw))
                    ltac:(subst L; lia) ltac:(subst L; lia)).
  assert (Hend : rounds e (S k) (loop_init file)
                 = {| unread := []; total := L;
                      written := take (k * Z.to_nat chunk_size) (UploadFile.body file);
                      reads := S k; writes := k; st := Broke |}).
  { rewrite rounds_S, Hrun. unfold loop_body. simpl.
    rewrite (read_raises_none e k Hr).
    rewrite (drop_ge (UploadFile.body file)) by (subst L; lia).
    rewrite take_nil, drop_nil. f_equal. subst L. lia. }
  rewrite (loop_final_reached e file (S k)) by (rewrite Hend; discriminate).
  rewrite Hend. simpl. repeat split. subst k q. lia.
Qed.

(** *** One round, case by case *)

Section Round.
Variables (e : env) (u : list byte) (t : Z) (w : list byte) (r wr : nat).
Let s := {| unread := u; total := t; written := w; reads := r; writes := wr;
            st := Running |}.
Let chunk := take (Z.to_nat chunk_size) u.
Let rest := drop (Z.to_nat chunk_size) u.

Lemma round_read_raises :
  read_raises e r = true ->
  loop_body e s
  = {| unread := u; total := t; written := w; reads := S r; writes := wr;
       st := Raised (read_exception e) |}.
Proof. intros H. unfold loop_body, s. simpl. now rewrite H. Qed.

Lemma round_end_of_stream :
  read_raises e r = false -> u = [] ->
  loop_body e s
  = {| unread := []; total := t; written := w; reads := S r; writes := wr;
       st := Broke |}.
Proof.
  intros H ->. unfold loop_body, s. simpl. rewrite H.
  now rewrite take_nil, drop_nil.
Qed.

Lemma round_too_large :
  read_raises e r = false -> u <> [] ->
  t + Z.of_nat (length chunk) > MAX_FILE_SIZE_BYTES ->
  loop_body e s
  = {| unread := rest; total := t + Z.of_nat (length chunk); written := w;
       reads := S r; writes := wr; st := Raised too_large |}.
Proof.
  intros H Hu Hgt. unfold loop_body, s. simpl. rewrite H. fold chunk rest.
  pose proof chunk_size_pos.
  assert (chunk <> []).
  { unfold chunk. destruct u; [congruence|].
    destruct (Z.to_nat chunk_size); [lia|discriminate]. }
  destruct chunk as [|x l] eqn:E; [congruence|].
  destruct (Z.gtb_spec (t + Z.of_nat (length (x :: l))) MAX_FILE_SIZE_BYTES);
    [reflexivity|lia].
Qed.

Lemma round_write_raises k :
  read_raises e r = false -> u <> [] ->
  t + Z.of_nat (length chunk) <= MAX_FILE_SIZE_BYTES ->
  write_raises e wr = Some k ->
  loop_body e s
  = {| unread := rest; total := t + Z.of_nat (length chunk);
       written := w ++ take k chunk;
       reads := S r; writes := S wr; st := Raised (OSError (exc_text e)) |}.
Proof.
  intros H Hu Hle Hw. unfold loop_body, s. simpl. rewrite H. fold chunk rest.
  pose proof chunk_size_pos.
  assert (chunk <> []).
  { unfold chunk. destruct u; [congruence|].
    destruct (Z.to_nat chunk_size); [lia|discriminate]. }
  destruct chunk as [|x l] eqn:E; [congruence|].
  destruct (Z.gtb_spec (t + Z.of_nat (length (x :: l))) MAX_FILE_SIZE_BYTES);
    [lia|]. now rewrite Hw.
Qed.

Lemma round_written :
  read_raises e r = false -> u <> [] ->
  t + Z.of_nat (length chunk) <= MAX_FILE_SIZE_BYTES ->
  write_raises e wr = None ->
  loop_body e s
  = {| unread := rest; total := t + Z.of_nat (length chunk);
       written := w ++ chunk;
       reads := S r; writes := S wr; st := Running |}.
Proof.
  intros H Hu Hle Hw. unfold loop_body, s. simpl. rewrite H. fold chunk rest.
  pose proof chunk_size_pos.
  assert (chunk <> []).
  { unfold chunk. destruct u; [congruence|].
    destruct (Z.to_nat chunk_size); [lia|discriminate]. }
  destruct chunk as [|x l] eqn:E; [congruence|].
  destruct (Z.gtb_spec (t + Z.of_nat (length (x :: l))) MAX_FILE_SIZE_BYTES);
    [lia|]. now rewrite Hw.
Qed.

End Round.

Lemma limit_in_chunks : Z.of_nat (500 * Z.to_nat chunk_size) = MAX_FILE_SIZE_BYTES.
Proof. rewrite Nat2Z.inj_mul, chunk_len_val, MAX_FILE_SIZE_BYTES_val. lia. Qed.

(** X2 (where the overflow is detected). With no failing read or write, a
    body longer than the limit is rejected at the 501st read: 500 chunks,
    exactly [MAX_FILE_SIZE_BYTES] bytes, have been written to the temp file,
    the running total counts one more chunk of at most [chunk_size] bytes,
    and whatever follows that chunk is left unread. *)
Theorem overflow_detected_at_limit (e : env) (file : UploadFile.t) :
  fault_read e = None -> fault_write e = None ->
  Z.of_nat (length (UploadFile.body file)) > MAX_FILE_SIZE_BYTES ->
  st (loop_final e file) = Raised (HTTPException 413 too_large_detail)
  /\ reads (loop_final e file) = 501%nat
  /\ writes (loop_final e file) = 500%nat
  /\ written (loop_final e file)
     = take (Z.to_nat MAX_FILE_SIZE_BYTES) (UploadFile.body file)
  /\ Z.of_nat (length (written (loop_final e file))) = MAX_FILE_SIZE_BYTES
  /\ unread (loop_final e file)
     = drop (Z.to_nat (MAX_FILE_SIZE_BYTES + chunk_size)) (UploadFile.body file)
  /\ total (loop_final e file)
     = Z.min (Z.of_nat (length (UploadFile.body file)))
             (MAX_FILE_SIZE_BYTES + chunk_size).
Proof.
  intros Hr Hw Hgt.
  pose proof chunk_len_val as Hc. pose proof limit_in_chunks as Hlim.
  pose proof chunk_size_val as Hcs.
  set (b := UploadFile.body file) in *. set (c := Z.to_nat chunk_size) in *.
  assert (Hrun := rounds_running e file 500
                    (fun i _ => conj (read_raises_none e i Hr)
                                     (write_raises_none e i Hw))
                    ltac:(fold b c; lia) ltac:(fold b c; lia)).
  fold b c in Hrun.
  assert (Hend : rounds e 501 (loop_init file)
                 = {| unread := drop (500 * c + c) b;
                      total := Z.of_nat (Nat.min (500 * c + c) (length b));
                      written := take (500 * c) b;
                      reads := 501; writes := 500; st := Raised too_large |}).
  { rewrite rounds_S, Hrun.
    rewrite round_too_large; fold c.
    - rewrite drop_drop, length_take, length_drop. f_equal. lia.
    - now apply read_raises_none.
    - intros Hnil. apply (f_equal length) in Hnil.
      rewrite length_drop in Hnil. simpl in Hnil. lia.
    - rewrite length_take, length_drop. lia. }
  rewrite (loop_final_reached e file 501) by (rewrite Hend; discriminate).
  rewrite Hend. cbn [st reads writes written unread total].
  replace (Z.to_nat MAX_FILE_SIZE_BYTES) with (500 * c)%nat by lia.
  replace (Z.to_nat (MAX_FILE_SIZE_BYTES + chunk_size)) with (500 * c + c)%nat
    by lia.
  repeat split.
  - rewrite length_take. lia.
  - lia.
Qed.

Lemma overflow_detected_at_limit_witness :
  st (loop_final env0 file_over_limit) = Raised (HTTPException 413 too_large_detail)
  /\ reads (loop_final env0 file_over_limit) = 501%nat
  /\ writes (loop_final env0 file_over_limit) = 500%nat
  /\ written (loop_final env0 file_over_limit)
     = take (Z.to_nat MAX_FILE_SIZE_BYTES) (UploadFile.body file_over_limit)
  /\ Z.of_nat (length (written (loop_final env0 file_over_limit)))
     = MAX_FILE_SIZE_BYTES
  /\ unread (loop_final env0 file_over_limit)
     = drop (Z.to_nat (MAX_FILE_SIZE_BYTES + chunk_size))
            (UploadFile.body file_over_limit)
  /\ total (loop_final env0 file_over_limit)
     = Z.min (Z.of_nat (length (UploadFile.body file_over_limit)))
             (MAX_FILE_SIZE_BYTES + chunk_size).
Proof.
  apply (overflow_detected_at_limit env0 file_over_limit).
  - reflexivity.
  - reflexivity.
  - rewrite length_file_over_limit. lia.
Defined.

Lemma accepted_upload_read_count_witness :
  st (loop_final env0 sample_file) = Broke
  /\ Z.of_nat (writes (loop_final env0 sample_file))
     = (Z.of_nat (length (UploadFile.body sample_file)) + chunk_size - 1)
       / chunk_size
  /\ reads (loop_final env0 sample_file) = S (writes (loop_final env0 sample_file)).
Proof.
  apply (accepted_upload_read_count env0 sample_file).
  - reflexivity.
  - reflexivity.
  - rewrite MAX_FILE_SIZE_BYTES_val. simpl. lia.
Defined.

(** ** Failures, one cause at a time *)

Section Failures.
Variables (e : env) (fs : filesystem) (file : UploadFile.t).
Let b := UploadFile.body file.
Let c := Z.to_nat chunk_size.

Lemma chunk_offset i : Z.of_nat (i * c) = Z.of_nat i * chunk_size.
Proof.
  unfold c. now rewrite Nat2Z.inj_mul, chunk_len_val, chunk_size_val.
Qed.

Lemma loop_final_read_raises i :
  fault_read e = Some i -> fault_write e = None ->
  Z.of_nat i * chunk_size < Z.of_nat (length b) + chunk_size ->
  Z.min (Z.of_nat i * chunk_size) (Z.of_nat (length b)) <= MAX_FILE_SIZE_BYTES ->
  loop_final e file
  = {| unread := drop (i * c) b;
       total := Z.of_nat (Nat.min (i * c) (length b));
       written := take (i * c) b; reads := S i; writes := i;
       st := Raised (read_exception e) |}.
Proof.
  intros Hr Hw Hne Hle. pose proof (chunk_offset i) as Hi.
  pose proof chunk_len_val as Hc. fold c in Hc. rewrite chunk_size_val in *.
  assert (Hrun : rounds e i (loop_init file)
                 = {| unread := drop (i * c) b;
                      total := Z.of_nat (Nat.min (i * c) (length b));
                      written := take (i * c) b; reads := i; writes := i;
                      st := Running |}).
  { apply rounds_running.
    - intros j Hj. split; [|now apply write_raises_none].
      unfold read_raises. rewrite Hr. apply Nat.eqb_neq. lia.
    - fold b c. lia.
    - fold b c. lia. }
  assert (Hraise : read_raises e i = true)
    by (unfold read_raises; rewrite Hr; apply Nat.eqb_refl).
  assert (Hstep : rounds e (S i) (loop_init file)
                  = {| unread := drop (i * c) b;
                       total := Z.of_nat (Nat.min (i * c) (length b));
                       written := take (i * c) b; reads := S i; writes := i;
                       st := Raised (read_exception e) |}).
  { rewrite rounds_S, Hrun. now apply round_read_raises. }
  rewrite (loop_final_reached e file (S i)) by (rewrite Hstep; discriminate).
  exact Hstep.
Qed.

Lemma loop_final_write_raises i k :
  fault_read e = None -> fault_write e = Some (i, k) ->
  Z.of_nat i * chunk_size < Z.of_nat (length b) ->
  Z.min ((Z.of_nat i + 1) * chunk_size) (Z.of_nat (length b))
  <= MAX_FILE_SIZE_BYTES ->
  loop_final e file
  = {| unread := drop (S i * c) b;
       total := Z.of_nat (Nat.min (S i * c) (length b));
       written := take (i * c) b ++ take k (take c (drop (i * c) b));
       reads := S i; writes := S i;
       st := Raised (OSError (exc_text e)) |}.
Proof.
  intros Hr Hw Hne Hle. pose proof (chunk_offset i) as Hi.
  pose proof chunk_len_val as Hc. fold c in Hc. rewrite chunk_size_val in *.
  assert (Hrun : rounds e i (loop_init file)
                 = {| unread := drop (i * c) b;
                      total := Z.of_nat (Nat.min (i * c) (length b));
                      written := take (i * c) b; reads := i; writes := i;
                      st := Running |}).
  { apply rounds_running.
    - intros j Hj. split; [now apply read_raises_none|].
      unfold write_raises. rewrite Hw.
      destruct (Nat.eqb_spec j i); [lia|reflexivity].
    - fold b c. lia.
    - fold b c. lia. }
  assert (Hstep : rounds e (S i) (loop_init file)
                  = {| unread := drop (S i * c) b;
                       total := Z.of_nat (Nat.min (S i * c) (length b));
                       written := take (i * c) b ++ take k (take c (drop (i * c) b));
                       reads := S i; writes := S i;
                       st := Raised (OSError (exc_text e)) |}).
  { rewrite rounds_S, Hrun. rewrite (round_write_raises _ _ _ _ _ _ k); fold c.
    - rewrite drop_drop, length_take, length_drop. f_equal; [f_equal; lia|lia].
    - now apply read_raises_none.
    - intros Hnil. apply (f_equal length) in Hnil.
      rewrite length_drop in Hnil. simpl in Hnil. lia.
    - rewrite length_take, length_drop. lia.
    - unfold write_raises. now rewrite Hw, Nat.eqb_refl. }
  rewrite (loop_final_reached e file (S i)) by (rewrite Hstep; discriminate).
  exact Hstep.
Qed.

End Failures.

(** X3 (a failing read). When the read call number [i] raises - it is made,
    and what was read before it is within the limit - the temp file had
    received the first [i] chunks. If the read raised an [OSError],
    [upload_video] raises the 500 "Failed to receive file data" error, and
    the temp file is removed unless its removal fails; if the read was
    cancelled, the cancellation leaves [upload_video] and the temp file
    stays. *)
Theorem read_failure_reported (e : env) (fs : filesystem) (file : UploadFile.t)
        (i : nat) :
  fault_open e = false -> fault_read e = Some i -> fault_write e = None ->
  Z.of_nat i * chunk_size < Z.of_nat (length (UploadFile.body file)) + chunk_size ->
  Z.min (Z.of_nat i * chunk_size) (Z.of_nat (length (UploadFile.body file)))
  <= MAX_FILE_SIZE_BYTES ->
  written (loop_final e file)
  = take (i * Z.to_nat chunk_size) (UploadFile.body file)
  /\ reads (loop_final e file) = S i
  /\ upload_video e fs (Some file)
     = (Raise (if read_cancelled e then CancelledError
               else HTTPException 500
                      ("Failed to receive file data: " +:+ exc_text e)),
        if (read_cancelled e || fault_remove e)%bool
        then <[tmp_path_of e
               := take (i * Z.to_nat chunk_size) (UploadFile.body file)]> fs
        else delete (tmp_path_of e) fs).
Proof.
  intros Ho Hr Hw Hne Hle.
  pose proof (loop_final_read_raises e file i Hr Hw Hne Hle) as Hfin.
  assert (Hst : st (loop_final e file) = Raised (read_exception e))
    by (rewrite Hfin; reflexivity).
  assert (Hwr : written (loop_final e file)
                = take (i * Z.to_nat chunk_size) (UploadFile.body file))
    by (rewrite Hfin; reflexivity).
  split; [exact Hwr|]. split; [rewrite Hfin; reflexivity|].
  unfold read_exception in Hst. destruct (read_cancelled e).
  - rewrite (upload_of_cancelled e fs file Ho Hst), Hwr. reflexivity.
  - rewrite (upload_of_oserror e fs file _ Ho Hst), Hwr. reflexivity.
Qed.

Lemma read_failure_reported_witness :
  written (loop_final env_read_fails sample_file)
  = take (1 * Z.to_nat chunk_size) (UploadFile.body sample_file)
  /\ reads (loop_final env_read_fails sample_file) = 2%nat
  /\ upload_video env_read_fails ∅ (Some sample_file)
     = (Raise (if read_cancelled env_read_fails then CancelledError
               else HTTPException 500 ("Failed to receive file data: "
                                         +:+ exc_text env_read_fails)),
        if (read_cancelled env_read_fails || fault_remove env_read_fails)%bool
        then <[tmp_path_of env_read_fails
               := take (1 * Z.to_nat chunk_size) (UploadFile.body sample_file)]> ∅
        else delete (tmp_path_of env_read_fails) ∅).
Proof.
  apply (read_failure_reported env_read_fails ∅ sample_file 1).
  - reflexivity.
  - reflexivity.
  - reflexivity.
  - rewrite chunk_size_val. simpl. lia.
  - rewrite chunk_size_val, MAX_FILE_SIZE_BYTES_val. simpl. lia.
Defined.

(** X4 (a failing write). When the write call number [i] raises after [k]
    bytes - chunk [i] exists and is within the limit - the temp file had
    received the first [i] chunks and at most [k] bytes of the next, and
    [upload_video] raises the 500 "Failed to receive file data" error; the
    temp file is removed, unless its removal fails: then it stays as the
    failed write left it. *)
Theorem write_failure_reported (e : env) (fs : filesystem) (file : UploadFile.t)
        (i k : nat) :
  fault_open e = false -> fault_read e = None -> fault_write e = Some (i, k) ->
  Z.of_nat i * chunk_size < Z.of_nat (length (UploadFile.body file)) ->
  Z.min ((Z.of_nat i + 1) * chunk_size) (Z.of_nat (length (UploadFile.body file)))
  <= MAX_FILE_SIZE_BYTES ->
  written (loop_final e file)
  = take (i * Z.to_nat chunk_size) (UploadFile.body file)
    ++ take k (take (Z.to_nat chunk_size)
                    (drop (i * Z.to_nat chunk_size) (UploadFile.body file)))
  /\ upload_video e fs (Some file)
     = (Raise (HTTPException 500 ("Failed to receive file data: " +:+ exc_text e)),
        if fault_remove e
        then <[tmp_path_of e := written (loop_final e file)]> fs
        else delete (tmp_path_of e) fs).
Proof.
  intros Ho Hr Hw Hne Hle.
  pose proof (loop_final_write_raises e file i k Hr Hw Hne Hle) as Hfin.
  assert (Hst : st (loop_final e file) = Raised (OSError (exc_text e)))
    by (rewrite Hfin; reflexivity).
  split; [rewrite Hfin; reflexivity|].
  exact (upload_of_oserror e fs file _ Ho Hst).
Qed.

Lemma write_failure_reported_witness :
  written (loop_final env_cleanup_fails sample_file)
  = take (0 * Z.to_nat chunk_size) (UploadFile.body sample_file)
    ++ take 2 (take (Z.to_nat chunk_size)
                    (drop (0 * Z.to_nat chunk_size) (UploadFile.body sample_file)))
  /\ upload_video env_cleanup_fails ∅ (Some sample_file)
     = (Raise (HTTPException 500 ("Failed to receive file data: "
                                    +:+ exc_text env_cleanup_fails)),
        if fault_remove env_cleanup_fails
        then <[tmp_path_of env_cleanup_fails
               := written (loop_final env_cleanup_fails sample_file)]> ∅
        else delete (tmp_path_of env_cleanup_fails) ∅).
Proof.
  apply (write_failure_reported env_cleanup_fails ∅ sample_file 0 2).
  - reflexivity.
  - reflexivity.
  - reflexivity.
  - rewrite chunk_size_val. simpl. lia.
  - rewrite chunk_size_val, MAX_FILE_SIZE_BYTES_val. simpl. lia.
Defined.

(** X5 (a failing rename). When staging succeeded and [os.replace] raises,
    [upload_video] raises the 500 "Failed to save file" error and every path
    other than the temp path is as before the call; the temp file is
    removed, unless its removal fails: then it stays, holding the whole
    body. *)
Theorem rename_failure_reported (e : env) (fs : filesystem) (file : UploadFile.t) :
  fault_open e = false -> fault_read e = None -> fault_write e = None ->
  fault_replace e = true ->
  Z.of_nat (length (UploadFile.body file)) <= MAX_FILE_SIZE_BYTES ->
  upload_video e fs (Some file)
  = (Raise (HTTPException 500 ("Failed to save file: " +:+ exc_text e)),
     if fault_remove e
     then <[tmp_path_of e := UploadFile.body file]> fs
     else delete (tmp_path_of e) fs).
Proof.
  intros Ho Hr Hw Hp Hle. unfold upload_video. cbv zeta.
  rewrite (enforce_within e fs file Ho Hr Hw Hle).
  unfold Os.replace. rewrite Hp. now rewrite remove_staged.
Qed.

Lemma rename_failure_reported_witness :
  upload_video env_replace_fails ∅ (Some sample_file)
  = (Raise (HTTPException 500 ("Failed to save file: "
                                 +:+ exc_text env_replace_fails)),
     if fault_remove env_replace_fails
     then <[tmp_path_of env_replace_fails := UploadFile.body sample_file]> ∅
     else delete (tmp_path_of env_replace_fails) ∅).
Proof.
  apply (rename_failure_reported env_replace_fails ∅ sample_file).
  - reflexivity.
  - reflexivity.
  - reflexivity.
  - reflexivity.
  - rewrite MAX_FILE_SIZE_BYTES_val. simpl. lia.
Defined.

(** ** What an error tells about its cause *)

(** X6 (what the exception tells). When [upload_video] raises for a request
    that carries a file, the exception tells its cause: the 413 is raised
    only for a body longer than the limit whose temp file could be removed;
    a 500 only when opening, reading, writing or renaming failed; an
    [OSError] leaves the call only when the removal of the temp file failed
    on the way of the 413; a cancellation only when the read was cancelled.
    So a body within the limit is never answered 413, and when no removal
    fails and no read is cancelled the exception is an [HTTPException] with
    status 413 or 500. *)
Theorem status_code_tells_cause (e : env) (fs : filesystem) (file : UploadFile.t)
        (ex : exn) (fs' : filesystem) :
  upload_video e fs (Some file) = (Raise ex, fs') ->
  (ex = HTTPException 413 too_large_detail
   /\ Z.of_nat (length (UploadFile.body file)) > MAX_FILE_SIZE_BYTES
   /\ fault_open e = false /\ fault_remove e = false
   \/ (exists detail, ex = HTTPException 500 detail)
      /\ (fault_open e = true \/ fault_read e <> None \/ fault_write e <> None
          \/ fault_replace e = true)
   \/ ex = OSError (exc_text e)
      /\ Z.of_nat (length (UploadFile.body file)) > MAX_FILE_SIZE_BYTES
      /\ fault_open e = false /\ fault_remove e = true
   \/ ex = CancelledError
      /\ fault_open e = false /\ fault_read e <> None /\ read_cancelled e = true)
  /\ (Z.of_nat (length (UploadFile.body file)) <= MAX_FILE_SIZE_BYTES ->
      (exists detail, ex = HTTPException 500 detail) \/ ex = CancelledError)
  /\ (fault_remove e = false -> read_cancelled e = false ->
      exists code detail,
        ex = HTTPException code detail /\ (code = 413 \/ code = 500)).
Proof.
  intros H. apply upload_raise in H.
  assert (H500r : exists detail, receive_failed (exc_text e) = HTTPException 500 detail)
    by (eexists; reflexivity).
  assert (H500s : exists detail, save_failed (exc_text e) = HTTPException 500 detail)
    by (eexists; reflexivity).
  destruct H as [(Ho & -> & _)|(Ho & [(Hgt & -> & _)|[(Hf & -> & _)
                 |[((Hfr & Hc) & -> & _)|((Hp & Hle & _) & -> & _)]]])].
  - split; [right; left; split; [exact H500r|now left]|].
    split; [intros _; now left|].
    intros _ _. eexists _, _. split; [reflexivity|now right].
  - destruct (fault_remove e) eqn:Hrm.
    + split; [do 2 right; left; auto|]. split; [lia|congruence].
    + split; [left; auto|]. split; [lia|].
      intros _ _. eexists _, _. split; [reflexivity|now left].
  - split; [right; left; split; [exact H500r|tauto]|].
    split; [intros _; now left|].
    intros _ _. eexists _, _. split; [reflexivity|now right].
  - split; [do 3 right; auto|]. split; [intros _; now right|congruence].
  - split; [right; left; split; [exact H500s|tauto]|].
    split; [intros _; now left|].
    intros _ _. eexists _, _. split; [reflexivity|now right].
Qed.

Lemma status_code_tells_cause_witness :
  (receive_failed "Connection reset by peer" = HTTPException 413 too_large_detail
   /\ Z.of_nat (length (UploadFile.body sample_file)) > MAX_FILE_SIZE_BYTES
   /\ fault_open env_read_fails = false /\ fault_remove env_read_fails = false
   \/ (exists detail,
          receive_failed "Connection reset by peer" = HTTPException 500 detail)
      /\ (fault_open env_read_fails = true \/ fault_read env_read_fails <> None
          \/ fault_write env_read_fails <> None
          \/ fault_replace env_read_fails = true)
   \/ receive_failed "Connection reset by peer" = OSError (exc_text env_read_fails)
      /\ Z.of_nat (length (UploadFile.body sample_file)) > MAX_FILE_SIZE_BYTES
      /\ fault_open env_read_fails = false /\ fault_remove env_read_fails = true
   \/ receive_failed "Connection reset by peer" = CancelledError
      /\ fault_open env_read_fails = false /\ fault_read env_read_fails <> None
      /\ read_cancelled env_read_fails = true)
  /\ (Z.of_nat (length (UploadFile.body sample_file)) <= MAX_FILE_SIZE_BYTES ->
      (exists detail,
          receive_failed "Connection reset by peer" = HTTPException 500 detail)
      \/ receive_failed "Connection reset by peer" = CancelledError)
  /\ (fault_remove env_read_fails = false -> read_cancelled env_read_fails = false ->
      exists code detail,
        receive_failed "Connection reset by peer" = HTTPException code detail
        /\ (code = 413 \/ code = 500)).
Proof.
  apply (status_code_tells_cause env_read_fails ∅ sample_file
           (receive_failed "Connection reset by peer") ∅).
  vm_compute. reflexivity.
Defined.

(** X7 (error responses). The response to what [upload_video] raises. An
    [HTTPException] is answered by [http_exception_handler] with the
    exception's status code and the body [{detail: <its detail>}]; the
    status is 400, 413 or 500, and it is 400 exactly when the request
    carries no file, in which case the upload directory is untouched. An
    [OSError] - raised only when the removal of the temp file failed for a
    body longer than the limit - is answered by
    [unhandled_exception_handler] with the generic 500. A cancellation is
    answered by neither handler. When no removal fails and no read is
    cancelled, the exception is an [HTTPException]. *)
Theorem error_response_shape (e : env) (fs : filesystem)
        (file : option UploadFile.t) (ex : exn) (fs' : filesystem) :
  upload_video e fs file = (Raise ex, fs') ->
  (file = None -> ex = HTTPException 400 "No file part provided." /\ fs' = fs)
  /\ (forall code detail, ex = HTTPException code detail ->
        http_exception_handler ex
        = Some {| JSONResponse.status_code := code;
                  JSONResponse.content := [("detail", JStr detail)] |}
        /\ exception_response ex = http_exception_handler ex
        /\ (code = 400 \/ code = 413 \/ code = 500)
        /\ (code = 400 <-> file = None))
  /\ (forall msg, ex = OSError msg ->
        http_exception_handler ex = None
        /\ exception_response ex
           = Some {| JSONResponse.status_code := 500;
                     JSONResponse.content :=
                       [("detail", JStr "An unexpected error occurred.")] |}
        /\ fault_remove e = true
        /\ exists f, file = Some f
                     /\ Z.of_nat (length (UploadFile.body f)) > MAX_FILE_SIZE_BYTES)
  /\ (ex = CancelledError ->
        exception_response ex = None /\ read_cancelled e = true)
  /\ (fault_remove e = false -> read_cancelled e = false ->
        exists code detail, ex = HTTPException code detail).
Proof.
  destruct file as [f|].
  - intros H. apply upload_raise in H.
    assert (Hhttp : forall c d,
               (c = 413 \/ c = 500) ->
               (Some f = None -> HTTPException c d
                                 = HTTPException 400 "No file part provided."
                                 /\ fs' = fs)
               /\ (forall code detail, HTTPException c d = HTTPException code detail ->
                     http_exception_handler (HTTPException c d)
                     = Some {| JSONResponse.status_code := code;
                               JSONResponse.content := [("detail", JStr detail)] |}
                     /\ exception_response (HTTPException c d)
                        = http_exception_handler (HTTPException c d)
                     /\ (code = 400 \/ code = 413 \/ code = 500)
                     /\ (code = 400 <-> Some f = None))
               /\ (forall msg, HTTPException c d = OSError msg ->
                     http_exception_handler (HTTPException c d) = None
                     /\ exception_response (HTTPException c d)
                        = Some {| JSONResponse.status_code := 500;
                                  JSONResponse.content :=
                                    [("detail", JStr "An unexpected error occurred.")] |}
                     /\ fault_remove e = true
                     /\ exists f0, Some f = Some f0
                                   /\ Z.of_nat (length (UploadFile.body f0))
                                      > MAX_FILE_SIZE_BYTES)
               /\ (HTTPException c d = CancelledError ->
                     exception_response (HTTPException c d) = None
                     /\ read_cancelled e = true)
               /\ (fault_remove e = false -> read_cancelled e = false ->
                     exists code detail, HTTPException c d = HTTPException code detail)).
    { intros c d Hc. split; [discriminate|]. split.
      - intros code detail [= <- <-]. split; [reflexivity|].
        split; [reflexivity|]. split; [tauto|].
        split; [intros ->; destruct Hc; discriminate|discriminate].
      - split; [intros msg; discriminate|]. split; [discriminate|].
        intros _ _. now eexists _, _. }
    destruct H as [(Ho & -> & _)|(Ho & [(Hgt & -> & _)|[(Hf & -> & _)
                   |[((Hfr & Hc) & -> & _)|((Hp & Hle & _) & -> & _)]]])].
    + apply Hhttp. now right.
    + destruct (fault_remove e) eqn:Hrm; [|apply Hhttp; now left].
      split; [discriminate|]. split; [intros code detail; discriminate|].
      split.
      * intros msg _. split; [reflexivity|]. split; [reflexivity|].
        split; [reflexivity|]. now exists f.
      * split; [discriminate|congruence].
    + apply Hhttp. now right.
    + split; [discriminate|]. split; [intros code detail; discriminate|].
      split; [intros msg; discriminate|].
      split; [intros _; now split|congruence].
    + apply Hhttp. now right.
  - simpl. intros [= <- <-]. split; [now split|]. split.
    + intros code detail [= <- <-]. split; [reflexivity|].
      split; [reflexivity|]. split; [now left|]. now split.
    + split; [intros msg; discriminate|]. split; [discriminate|].
      intros _ _. now eexists _, _.
Qed.

Lemma error_response_shape_witness :
  (Some file_over_limit = None ->
   HTTPException 413 too_large_detail = HTTPException 400 "No file part provided."
   /\ delete (tmp_path_of env0) (∅ : filesystem) = ∅)
  /\ (forall code detail,
        HTTPException 413 too_large_detail = HTTPException code detail ->
        http_exception_handler (HTTPException 413 too_large_detail)
        = Some {| JSONResponse.status_code := code;
                  JSONResponse.content := [("detail", JStr detail)] |}
        /\ exception_response (HTTPException 413 too_large_detail)
           = http_exception_handler (HTTPException 413 too_large_detail)
        /\ (code = 400 \/ code = 413 \/ code = 500)
        /\ (code = 400 <-> Some file_over_limit = None))
  /\ (forall msg, HTTPException 413 too_large_detail = OSError msg ->
        http_exception_handler (HTTPException 413 too_large_detail) = None
        /\ exception_response (HTTPException 413 too_large_detail)
           = Some {| JSONResponse.status_code := 500;
                     JSONResponse.content :=
                       [("detail", JStr "An unexpected error occurred.")] |}
        /\ fault_remove env0 = true
        /\ exists f, Some file_over_limit = Some f
                     /\ Z.of_nat (length (UploadFile.body f)) > MAX_FILE_SIZE_BYTES)
  /\ (HTTPException 413 too_large_detail = CancelledError ->
        exception_response (HTTPException 413 too_large_detail) = None
        /\ read_cancelled env0 = true)
  /\ (fault_remove env0 = false -> read_cancelled env0 = false ->
        exists code detail,
          HTTPException 413 too_large_detail = HTTPException code detail).
Proof.
  apply (error_response_shape env0 ∅ (Some file_over_limit)
           (HTTPException 413 too_large_detail)
           (delete (tmp_path_of env0) ∅)).
  apply upload_beyond; [exact no_faults_env0|].
  rewrite length_file_over_limit. lia.
Defined.

(** The three kinds of exception, and the response each one gets. *)
Example responses_by_exception :
  exception_response (HTTPException 400 "No file part provided.")
  = Some {| JSONResponse.status_code := 400;
            JSONResponse.content := [("detail", JStr "No file part provided.")] |}
  /\ exception_response (OSError "Permission denied")
     = Some {| JSONResponse.status_code := 500;
               JSONResponse.content :=
                 [("detail", JStr "An unexpected error occurred.")] |}
  /\ exception_response CancelledError = None.
Proof. repeat split. Qed.

(** X8 (the usage endpoint and the upload endpoint agree). The directory
    [docs_usage] reports is the [upload_dir] of every returned response, and
    the size it reports bounds every returned [size_bytes]; a body longer
    than that size is refused with 413 when no I/O call fails. *)
Theorem usage_matches_enforcement (e : env) (fs : filesystem)
        (file : UploadFile.t) (r : UploadResponse.t) (fs' : filesystem) :
  upload_video e fs (Some file) = (Return r, fs') ->
  dict_get "destination_dir" (docs_usage e)
  = Some (JStr (UploadResponse.upload_dir r))
  /\ exists m,
      dict_get "max_size_bytes" (docs_usage e) = Some (JInt m)
      /\ UploadResponse.size_bytes r <= m
      /\ (forall fs0 f,
             no_faults e -> Z.of_nat (length (UploadFile.body f)) > m ->
             fst (upload_video e fs0 (Some f))
             = Raise (HTTPException 413 too_large_detail)).
Proof.
  intros H. apply upload_return in H. destruct H as (-> & Hle & _).
  split; [reflexivity|]. exists MAX_FILE_SIZE_BYTES.
  split; [reflexivity|]. split; [exact Hle|].
  intros fs0 f Hnf Hgt. now rewrite upload_beyond.
Qed.

Lemma usage_matches_enforcement_witness :
  dict_get "destination_dir" (docs_usage env0)
  = Some (JStr (UploadResponse.upload_dir sample_response))
  /\ exists m,
      dict_get "max_size_bytes" (docs_usage env0) = Some (JInt m)
      /\ UploadResponse.size_bytes sample_response <= m
      /\ (forall fs0 f,
             no_faults env0 -> Z.of_nat (length (UploadFile.body f)) > m ->
             fst (upload_video env0 fs0 (Some f))
             = Raise (HTTPException 413 too_large_detail)).
Proof.
  apply (usage_matches_enforcement env0 ∅ sample_file sample_response
           (snd (upload_video env0 ∅ (Some sample_file)))).
  rewrite (surjective_pairing (upload_video env0 ∅ (Some sample_file))) at 1.
  apply (f_equal2 pair); [vm_compute; reflexivity | reflexivity].
Defined.

(** ** Generated names and paths *)

Lemma str_length_append s t :
  String.length (s +:+ t) = (String.length s + String.length t)%nat.
Proof.
  induction s as [|x s IH]; [reflexivity|].
  rewrite append_cons. simpl. now rewrite IH.
Qed.

Lemma append_inj s s' t t' :
  String.length s = String.length s' ->
  s +:+ t = s' +:+ t' -> s = s' /\ t = t'.
Proof.
  revert s'. induction s as [|x s IH]; intros [|y s'] Hlen H;
    simpl in Hlen; try discriminate.
  - now split.
  - rewrite !append_cons in H. injection H as -> H.
    destruct (IH s' ltac:(lia) H) as [-> ->]. now split.
Qed.

Lemma fixed_digits_length base width n :
  String.length (PyStr.fixed_digits base width n) = width.
Proof.
  revert n. induction width as [|w IH]; intros n; [reflexivity|].
  simpl PyStr.fixed_digits. rewrite str_length_append, IH. simpl. lia.
Qed.

Lemma strftime_length dt : String.length (strftime dt) = 16%nat.
Proof.
  unfold strftime. rewrite !str_length_append, !fixed_digits_length.
  reflexivity.
Qed.

Lemma uuid_hex_length u : String.length (uuid_hex u) = 32%nat.
Proof. apply fixed_digits_length. Qed.

Lemma digit_char_code d :
  (d < 16)%N ->
  N_of_ascii (PyStr.digit_char d) = (if (d <? 10)%N then 48 + d else 87 + d)%N.
Proof.
  intros H. unfold PyStr.digit_char.
  destruct (d <? 10)%N; apply N_ascii_embedding; lia.
Qed.

Lemma digit_char_inj d d' :
  (d < 16)%N -> (d' < 16)%N ->
  PyStr.digit_char d = PyStr.digit_char d' -> d = d'.
Proof.
  intros H H' E. apply (f_equal N_of_ascii) in E.
  rewrite !digit_char_code in E by assumption.
  destruct (N.ltb_spec d 10), (N.ltb_spec d' 10); lia.
Qed.

(** The digits printed determine the number, up to the width printed. *)
Lemma fixed_digits_inj base width n m :
  (1 < base <= 16)%N ->
  PyStr.fixed_digits base width n = PyStr.fixed_digits base width m ->
  (n mod base ^ N.of_nat width = m mod base ^ N.of_nat width)%N.
Proof.
  intros Hb. revert n m. induction width as [|w IH]; intros n m H.
  - simpl. now rewrite !N.mod_1_r.
  - simpl PyStr.fixed_digits in H.
    apply append_inj in H; [|now rewrite !fixed_digits_length].
    destruct H as [Hhi Hlo]. injection Hlo as Hlo.
    apply digit_char_inj in Hlo;
      [|pose proof (N.mod_lt n base); lia|pose proof (N.mod_lt m base); lia].
    apply IH in Hhi.
    rewrite Nat2N.inj_succ, N.pow_succ_r'.
    rewrite !N.Div0.mod_mul_r. now rewrite Hlo, Hhi.
Qed.

Lemma append_head_inj x s t : String x s = String x t -> s = t.
Proof. now intros [= ->]. Qed.

Lemma generated_name_parts e1 e2 n1 n2 :
  _safe_destination_filename e1 n1 = _safe_destination_filename e2 n2 ->
  strftime (utcnow e1) = strftime (utcnow e2)
  /\ uuid_hex (uuid_name e1) = uuid_hex (uuid_name e2)
  /\ PyStr.lower (snd (OsPath.splitext n1)) = PyStr.lower (snd (OsPath.splitext n2)).
Proof.
  rewrite !generated_name_unfold. intros H.
  apply append_inj in H; [|now rewrite !strftime_length].
  destruct H as [Hts H]. rewrite !append_cons in H.
  apply append_head_inj in H.
  change (EmptyString +:+ ?a) with a in H.
  apply append_inj in H; [|now rewrite !uuid_hex_length].
  tauto.
Qed.

(** X9 (the name determines the token). Two generated names are equal only
    if their timestamps print alike, their UUIDs agree on all 128 bits, and
    the lower-cased extensions agree: two calls whose UUIDs differ never
    produce the same name, whatever the clock and the original names. *)
Theorem generated_name_determines_token (e1 e2 : env) (n1 n2 : string) :
  _safe_destination_filename e1 n1 = _safe_destination_filename e2 n2 ->
  strftime (utcnow e1) = strftime (utcnow e2)
  /\ (uuid_name e1 mod 2 ^ 128 = uuid_name e2 mod 2 ^ 128)%N
  /\ PyStr.lower (snd (OsPath.splitext n1)) = PyStr.lower (snd (OsPath.splitext n2)).
Proof.
  intros H. apply generated_name_parts in H. destruct H as (Hts & Hu & Hext).
  split; [exact Hts|]. split; [|exact Hext].
  apply (fixed_digits_inj 16 32) in Hu; [exact Hu|lia].
Qed.

Lemma generated_name_determines_token_witness :
  strftime (utcnow env0) = strftime (utcnow env0)
  /\ (uuid_name env0 mod 2 ^ 128 = uuid_name env0 mod 2 ^ 128)%N
  /\ PyStr.lower (snd (OsPath.splitext "a.MP4"))
     = PyStr.lower (snd (OsPath.splitext "b.mp4")).
Proof.
  apply (generated_name_determines_token env0 env0 "a.MP4" "b.mp4").
  vm_compute. reflexivity.
Defined.

Section PathFacts.
Import PyStr.

Lemma append_assoc s t u : (s +:+ t) +:+ u = s +:+ (t +:+ u).
Proof.
  induction s as [|x s IH]; [reflexivity|].
  now rewrite !append_cons, IH.
Qed.

Lemma rfind_absent c s : contains c s = false -> rfind c s = -1.
Proof.
  intros H. pose proof (rfind_lower c s). pose proof (rfind_contains c s) as Hc.
  rewrite H in Hc. apply Z.leb_gt in Hc. lia.
Qed.

Lemma rfind_app_absent c s t :
  contains c t = false -> rfind c (s +:+ t) = rfind c s.
Proof.
  intros H. induction s as [|x s IH].
  - simpl. now apply rfind_absent.
  - rewrite append_cons. simpl. now rewrite IH.
Qed.

Lemma rfind_endswith c s :
  endswith s c = true -> rfind c s = Z.of_nat (String.length s) - 1.
Proof.
  induction s as [|x s IH]; [discriminate|].
  destruct s as [|y s].
  - simpl. now intros ->.
  - intros H. change (endswith (String x (String y s)) c)
      with (endswith (String y s) c) in H.
    specialize (IH H). simpl rfind in *. simpl String.length in *.
    rewrite IH.
    destruct (Z.leb_spec 0 (Z.of_nat (S (String.length s)) - 1)); lia.
Qed.

Lemma endswith_snoc c s : endswith (s +:+ String c EmptyString) c = true.
Proof.
  induction s as [|x s IH]; [simpl; apply Ascii.eqb_refl|].
  rewrite append_cons. destruct s as [|y s]; [simpl; apply Ascii.eqb_refl|].
  rewrite append_cons in *. exact IH.
Qed.

Lemma drop_append s t : drop (String.length s) (s +:+ t) = t.
Proof. induction s as [|x s IH]; [now destruct t|]. now rewrite append_cons. Qed.

Lemma startswith_contains c s : startswith s c = true -> contains c s = true.
Proof. destruct s as [|x s]; [discriminate|]. simpl. now intros ->. Qed.

Lemma startswith_append c s t :
  s <> EmptyString -> startswith (s +:+ t) c = startswith s c.
Proof. destruct s; [congruence|]. now rewrite append_cons. Qed.

(** [basename] undoes [join] on a second component without separator. *)
Lemma basename_join a b :
  contains OsPath.sep b = false -> OsPath.basename (OsPath.join a b) = b.
Proof.
  intros Hb. unfold OsPath.join, OsPath.basename.
  destruct (startswith b OsPath.sep) eqn:Hs.
  { apply startswith_contains in Hs. congruence. }
  assert (Hdir : forall d, endswith d OsPath.sep = true ->
                           drop (Z.to_nat (rfind OsPath.sep (d +:+ b) + 1)) (d +:+ b) = b).
  { intros d Hd. rewrite rfind_app_absent, (rfind_endswith _ _ Hd) by exact Hb.
    replace (Z.to_nat (Z.of_nat (String.length d) - 1 + 1))
      with (String.length d) by lia.
    apply drop_append. }
  destruct a as [|x a].
  - cbn [truthy negb orb]. change (EmptyString +:+ b) with b.
    now rewrite (rfind_absent _ _ Hb).
  - cbn [truthy negb orb]. destruct (endswith (String x a) OsPath.sep) eqn:He.
    + now apply Hdir.
    + rewrite <- append_assoc. apply Hdir, endswith_snoc.
Qed.

Lemma lower_char_sep x :
  Ascii.eqb (lower_char x) OsPath.sep = Ascii.eqb x OsPath.sep.
Proof. destruct x as [[] [] [] [] [] [] [] []]; reflexivity. Qed.

Lemma contains_sep_lower s :
  contains OsPath.sep (lower s) = contains OsPath.sep s.
Proof.
  induction s as [|x s IH]; [reflexivity|].
  simpl. now rewrite lower_char_sep, IH.
Qed.

Lemma skip_leading_dots_some p c d fi n r :
  OsPath.skip_leading_dots p c d fi n = Some r ->
  r = (take (Z.to_nat d) p, drop (Z.to_nat d) p).
Proof.
  revert fi. induction n as [|n IH]; intros fi; simpl; [discriminate|].
  destruct (fi <? d); [|discriminate].
  destruct (negb _); [congruence|apply IH].
Qed.

(** The extension [splitext] returns has no separator in it. *)
Lemma splitext_ext_no_sep p :
  contains OsPath.sep (snd (OsPath.splitext p)) = false.
Proof.
  unfold OsPath.splitext, OsPath._splitext.
  destruct (Z.ltb_spec (rfind OsPath.sep p) (rfind OsPath.extsep p)) as [Hlt|];
    [|reflexivity].
  destruct (OsPath.skip_leading_dots _ _ _ _ _) as [r|] eqn:E; [|reflexivity].
  apply skip_leading_dots_some in E. subst r. simpl.
  pose proof (rfind_lower OsPath.sep p).
  rewrite <- rfind_contains, rfind_drop, Z2Nat.id by lia.
  destruct (Z.leb_spec (rfind OsPath.extsep p) (rfind OsPath.sep p));
    [lia|reflexivity].
Qed.

Lemma digit_char_not_sep d :
  (d < 16)%N -> Ascii.eqb (digit_char d) OsPath.sep = false.
Proof.
  intros H. apply Ascii.eqb_neq. intros E. apply (f_equal N_of_ascii) in E.
  rewrite digit_char_code in E by exact H.
  destruct (d <? 10)%N; simpl in E; lia.
Qed.

Lemma fixed_digits_no_sep base width n :
  (0 < base <= 16)%N -> contains OsPath.sep (fixed_digits base width n) = false.
Proof.
  intros Hb. revert n. induction width as [|w IH]; intros n; [reflexivity|].
  simpl fixed_digits. rewrite contains_app, IH. simpl.
  rewrite digit_char_not_sep; [reflexivity|].
  pose proof (N.mod_lt n base). lia.
Qed.

Lemma generated_name_no_sep e name :
  contains OsPath.sep (_safe_destination_filename e name) = false.
Proof.
  rewrite generated_name_unfold. unfold strftime, uuid_hex.
  rewrite !contains_app, !fixed_digits_no_sep by lia.
  rewrite contains_sep_lower, splitext_ext_no_sep. reflexivity.
Qed.

Lemma strftime_not_empty dt : strftime dt <> EmptyString.
Proof.
  intros H. apply (f_equal String.length) in H.
  rewrite strftime_length in H. discriminate.
Qed.

Lemma generated_name_not_hidden e name :
  startswith (_safe_destination_filename e name) OsPath.extsep = false.
Proof.
  rewrite generated_name_unfold.
  rewrite startswith_append by apply strftime_not_empty.
  destruct (startswith (strftime (utcnow e)) OsPath.extsep) eqn:E;
    [|reflexivity].
  apply startswith_contains in E. unfold OsPath.extsep in E.
  now rewrite strftime_no_dot in E.
Qed.

Lemma tmp_name_no_sep u :
  contains OsPath.sep (".uploading_" +:+ uuid_hex u +:+ ".part") = false.
Proof.
  rewrite !contains_app. unfold uuid_hex.
  now rewrite fixed_digits_no_sep by lia.
Qed.

End PathFacts.

Lemma tmp_path_is_not_dest e e' name :
  tmp_path_of e <> OsPath.join (UPLOAD_DIR e') (_safe_destination_filename e' name).
Proof.
  intros H. apply (f_equal OsPath.basename) in H. unfold tmp_path_of in H.
  rewrite !basename_join in H
    by (apply tmp_name_no_sep || apply generated_name_no_sep).
  apply (f_equal (fun s => PyStr.startswith s OsPath.extsep)) in H.
  rewrite generated_name_not_hidden in H. discriminate.
Qed.

(** X10 (the stored name is a plain file name). Whatever the original name and
    the directory, the generated name has no "/" in it and does not start
    with ".", so the path it is joined into lies directly in the directory
    ([basename] gives the name back); its length is that of the timestamp,
    the "_", the 32 hex digits and the lower-cased extension. *)
Theorem generated_name_is_plain (e : env) (original_name dir : string) :
  PyStr.contains "/" (_safe_destination_filename e original_name) = false
  /\ PyStr.startswith (_safe_destination_filename e original_name) "." = false
  /\ OsPath.basename (OsPath.join dir (_safe_destination_filename e original_name))
     = _safe_destination_filename e original_name
  /\ String.length (_safe_destination_filename e original_name)
     = (49 + String.length (PyStr.lower (snd (OsPath.splitext original_name))))%nat.
Proof.
  split; [apply generated_name_no_sep|].
  split; [apply generated_name_not_hidden|].
  split; [apply basename_join, generated_name_no_sep|].
  rewrite generated_name_unfold, !str_length_append, strftime_length,
    uuid_hex_length. reflexivity.
Qed.

(** X11 (what a successful upload changes). After a returned response the temp
    path holds no file, the final path holds the body, and every other path
    of the directory is as before the call. *)
Theorem successful_upload_frame (e : env) (fs : filesystem) (file : UploadFile.t)
        (r : UploadResponse.t) (fs' : filesystem) :
  upload_video e fs (Some file) = (Return r, fs') ->
  fs' !! tmp_path_of e = None
  /\ fs' !! OsPath.join (UploadResponse.upload_dir r) (UploadResponse.saved_as r)
     = Some (UploadFile.body file)
  /\ (forall p,
         p <> tmp_path_of e ->
         p <> OsPath.join (UploadResponse.upload_dir r) (UploadResponse.saved_as r) ->
         fs' !! p = fs !! p).
Proof.
  intros H. apply upload_return in H. destruct H as (-> & _ & _ & ->).
  simpl. fold (dest_path_of e file).
  assert (Hne : tmp_path_of e <> dest_path_of e file)
    by apply tmp_path_is_not_dest.
  split; [rewrite lookup_insert_ne by congruence; apply lookup_delete_eq|].
  split; [apply lookup_insert_eq|].
  intros p Hp Hd.
  rewrite lookup_insert_ne by congruence. now apply lookup_delete_ne.
Qed.

Lemma successful_upload_frame_witness :
  snd (upload_video env0 ∅ (Some sample_file)) !! tmp_path_of env0 = None
  /\ snd (upload_video env0 ∅ (Some sample_file))
       !! OsPath.join (UploadResponse.upload_dir sample_response)
            (UploadResponse.saved_as sample_response)
     = Some (UploadFile.body sample_file)
  /\ (forall p,
         p <> tmp_path_of env0 ->
         p <> OsPath.join (UploadResponse.upload_dir sample_response)
                (UploadResponse.saved_as sample_response) ->
         snd (upload_video env0 ∅ (Some sample_file)) !! p
         = (∅ : filesystem) !! p).
Proof.
  apply (successful_upload_frame env0 ∅ sample_file sample_response
           (snd (upload_video env0 ∅ (Some sample_file)))).
  rewrite (surjective_pairing (upload_video env0 ∅ (Some sample_file))) at 1.
  apply (f_equal2 pair); [vm_compute; reflexivity | reflexivity].
Defined.

(** X12 (a later upload keeps the earlier file). When two uploads return one
    after the other and their name UUIDs differ, the saved names differ and
    after the second upload both bodies are in the directory, each under its
    own name. *)
Theorem consecutive_uploads_coexist (e1 e2 : env) (fs : filesystem)
        (f1 f2 : UploadFile.t) (r1 r2 : UploadResponse.t)
        (fs1 fs2 : filesystem) :
  upload_video e1 fs (Some f1) = (Return r1, fs1) ->
  upload_video e2 fs1 (Some f2) = (Return r2, fs2) ->
  (uuid_name e1 mod 2 ^ 128 <> uuid_name e2 mod 2 ^ 128)%N ->
  UploadResponse.saved_as r1 <> UploadResponse.saved_as r2
  /\ fs2 !! OsPath.join (UploadResponse.upload_dir r1) (UploadResponse.saved_as r1)
     = Some (UploadFile.body f1)
  /\ fs2 !! OsPath.join (UploadResponse.upload_dir r2) (UploadResponse.saved_as r2)
     = Some (UploadFile.body f2).
Proof.
  intros H1 H2 Hu.
  apply upload_return in H1. destruct H1 as (-> & _ & _ & ->).
  apply upload_return in H2. destruct H2 as (-> & _ & _ & ->).
  simpl. fold (dest_path_of e1 f1) (dest_path_of e2 f2).
  assert (Hnames : final_name_of e1 f1 <> final_name_of e2 f2).
  { intros E. apply generated_name_parts in E. destruct E as (_ & E & _).
    apply (fixed_digits_inj 16 32) in E; [|lia]. now apply Hu. }
  assert (Hdest : dest_path_of e2 f2 <> dest_path_of e1 f1).
  { intros E. apply (f_equal OsPath.basename) in E. unfold dest_path_of in E.
    rewrite !basename_join in E by apply generated_name_no_sep.
    now apply Hnames. }
  assert (Htmp : tmp_path_of e2 <> dest_path_of e1 f1)
    by apply tmp_path_is_not_dest.
  split; [exact Hnames|]. split; [|apply lookup_insert_eq].
  rewrite lookup_insert_ne by exact Hdest.
  rewrite lookup_delete_ne by exact Htmp.
  apply lookup_insert_eq.
Qed.

Lemma consecutive_uploads_coexist_witness :
  UploadResponse.saved_as sample_response <> UploadResponse.saved_as empty_response1
  /\ snd (upload_video env1 (snd (upload_video env0 ∅ (Some sample_file)))
            (Some empty_file))
       !! OsPath.join (UploadResponse.upload_dir sample_response)
            (UploadResponse.saved_as sample_response)
     = Some (UploadFile.body sample_file)
  /\ snd (upload_video env1 (snd (upload_video env0 ∅ (Some sample_file)))
            (Some empty_file))
       !! OsPath.join (UploadResponse.upload_dir empty_response1)
            (UploadResponse.saved_as empty_response1)
     = Some (UploadFile.body empty_file).
Proof.
  apply (consecutive_uploads_coexist env0 env1 ∅ sample_file empty_file
           sample_response empty_response1
           (snd (upload_video env0 ∅ (Some sample_file)))
           (snd (upload_video env1 (snd (upload_video env0 ∅ (Some sample_file)))
                   (Some empty_file)))).
  - rewrite (surjective_pairing (upload_video env0 ∅ (Some sample_file))) at 1.
    apply (f_equal2 pair); [vm_compute; reflexivity | reflexivity].
  - rewrite (surjective_pairing
               (upload_video env1 (snd (upload_video env0 ∅ (Some sample_file)))
                  (Some empty_file))) at 1.
    apply (f_equal2 pair); [vm_compute; reflexivity | reflexivity].
  - vm_compute. discriminate.
Defined.

(** ** The temp file only grows *)

Lemma length_take_le_bound (l : list byte) :
  Z.of_nat (length (take (Z.to_nat chunk_size) l)) <= 1048576.
Proof.
  pose proof chunk_len_val. rewrite length_take. lia.
Qed.

Lemma loop_body_grows e s :
  written s `prefix_of` written (loop_body e s)
  /\ total s <= total (loop_body e s)
  /\ (reads s <= reads (loop_body e s))%nat
  /\ Z.of_nat (length (written (loop_body e s)))
     <= Z.of_nat (length (written s)) + chunk_size.
Proof.
  pose proof chunk_len_val as Hc. rewrite chunk_size_val.
  unfold loop_body. destruct (st s).
  2,3: repeat split; [reflexivity|lia..].
  destruct (read_raises e (reads s)).
  { cbn [written total reads]. repeat split; [reflexivity|lia..]. }
  pose proof (length_take_le_bound (unread s)) as Hlen.
  destruct (take (Z.to_nat chunk_size) (unread s)) as [|x chunk].
  { cbn [written total reads]. repeat split; [reflexivity|lia..]. }
  destruct (_ >? _).
  { cbn [written total reads]. repeat split; [reflexivity|lia..]. }
  destruct (write_raises e (writes s)) as [k|]; cbn [written total reads].
  - pose proof (prefix_length _ _ (prefix_take (x :: chunk) k)).
    repeat split; [now apply prefix_app_r|lia..| rewrite length_app; lia].
  - repeat split; [now apply prefix_app_r|lia..| rewrite length_app; lia].
Qed.

(** X13 (the temp file is append-only). From any round to any later round the
    content of the temp file only gets longer by appending, the running
    total and the number of reads never decrease, and one round appends at
    most [chunk_size] bytes. *)
Theorem temp_file_only_grows (e : env) (file : UploadFile.t) (n k : nat) :
  written (rounds e n (loop_init file))
    `prefix_of` written (rounds e (n + k) (loop_init file))
  /\ total (rounds e n (loop_init file)) <= total (rounds e (n + k) (loop_init file))
  /\ (reads (rounds e n (loop_init file))
      <= reads (rounds e (n + k) (loop_init file)))%nat
  /\ Z.of_nat (length (written (rounds e (S n) (loop_init file))))
     <= Z.of_nat (length (written (rounds e n (loop_init file)))) + chunk_size.
Proof.
  split; [|split; [|split]].
  - induction k as [|k IH]; [now rewrite Nat.add_0_r|].
    rewrite Nat.add_succ_r, rounds_S. etransitivity; [exact IH|].
    apply loop_body_grows.
  - induction k as [|k IH]; [rewrite Nat.add_0_r; lia|].
    rewrite Nat.add_succ_r, rounds_S.
    pose proof (loop_body_grows e (rounds e (n + k) (loop_init file))). lia.
  - induction k as [|k IH]; [rewrite Nat.add_0_r; lia|].
    rewrite Nat.add_succ_r, rounds_S.
    pose proof (loop_body_grows e (rounds e (n + k) (loop_init file))). lia.
  - rewrite rounds_S. apply loop_body_grows.
Qed.

(** ** How often the stream is read *)

Lemma reads_inv_body e b s : reads_inv b s -> reads_inv b (loop_body e s).
Proof.
  pose proof chunk_len_val as Hc.
  destruct s as [u t w r wr status]. unfold reads_inv at 1. cbn [st].
  destruct status;
    [|intros H; now rewrite loop_body_left by (cbn [st]; discriminate)..].
  cbn [total reads unread]. rewrite chunk_size_val. intros (Ht & Hu & Hr).
  destruct (read_raises e r) eqn:Er.
  { rewrite round_read_raises by exact Er. unfold reads_inv. cbn [st reads].
    rewrite chunk_size_val. lia. }
  destruct u as [|x u'] eqn:Eu.
  { rewrite round_end_of_stream by auto. unfold reads_inv. cbn [st reads].
    rewrite chunk_size_val. lia. }
  rewrite <- Eu in *.
  assert (Hu0 : u <> []) by (rewrite Eu; discriminate).
  assert (Hpos : 0 < Z.of_nat (length u)) by (rewrite Eu; simpl; lia).
  assert (Hlen : Z.of_nat (length (take (Z.to_nat chunk_size) u))
                 = Z.min 1048576 (Z.of_nat (length u)))
    by (rewrite length_take; lia).
  destruct (Z.gtb_spec (t + Z.of_nat (length (take (Z.to_nat chunk_size) u)))
              MAX_FILE_SIZE_BYTES) as [Hgt|Hle].
  { rewrite round_too_large by (auto; lia). unfold reads_inv. cbn [st reads].
    rewrite chunk_size_val. lia. }
  destruct (write_raises e wr) as [k|] eqn:Ew.
  { rewrite (round_write_raises _ _ _ _ _ _ k) by auto.
    unfold reads_inv. cbn [st reads]. rewrite chunk_size_val. lia. }
  rewrite round_written by auto. unfold reads_inv.
  cbn [st reads total unread]. rewrite length_drop, Hlen, chunk_size_val. lia.
Qed.

Lemma reads_inv_rounds e file n :
  reads_inv (UploadFile.body file) (rounds e n (loop_init file)).
Proof.
  induction n as [|n IH].
  - unfold reads_inv. cbn. rewrite chunk_size_val. lia.
  - rewrite rounds_S. now apply reads_inv_body.
Qed.

(** X14 (every call ends, after a bounded number of reads). Whatever call
    fails, [upload_video] ends: it returns a response or raises an
    exception. When [open] fails no read is made: the 500 is raised whatever
    the body. When [open] succeeds the loop makes at least one read and is
    left after at most [ceil (length / chunk_size) + 1] reads. *)
Theorem upload_always_answers (e : env) (fs : filesystem) (file : UploadFile.t) :
  ((exists r, fst (upload_video e fs (Some file)) = Return r)
   \/ (exists ex, fst (upload_video e fs (Some file)) = Raise ex))
  /\ (fault_open e = true ->
      upload_video e fs (Some file)
      = (Raise (HTTPException 500 ("Failed to receive file data: " +:+ exc_text e)),
         Os.remove_if_exists e (tmp_path_of e) fs))
  /\ (fault_open e = false ->
      (0 < reads (loop_final e file))%nat
      /\ Z.of_nat (reads (loop_final e file))
         <= (Z.of_nat (length (UploadFile.body file)) + chunk_size - 1) / chunk_size
            + 1).
Proof.
  split; [|split].
  - destruct (upload_video e fs (Some file)) as [[r|ex|] fs'] eqn:E.
    + left. now exists r.
    + right. now exists ex.
    + exfalso. apply (upload_returns_or_raises e fs (Some file)).
      now rewrite E.
  - intros Ho. unfold upload_video, _enforce_file_size. cbv zeta.
    now rewrite Ho.
  - intros _.
    pose proof (reads_inv_rounds e file (S (length (UploadFile.body file)))) as H.
    fold (loop_final e file) in H. unfold reads_inv in H.
    pose proof (loop_finishes e file) as Hfin.
    assert (Hr : (0 < reads (loop_final e file))%nat
                 /\ (Z.of_nat (reads (loop_final e file)) - 1) * chunk_size
                    < Z.of_nat (length (UploadFile.body file)) + chunk_size)
      by (destruct (st (loop_final e file)); [congruence|exact H..]).
    clear H. destruct Hr as [Hpos Hr]. rewrite chunk_size_val in *.
    split; [exact Hpos|].
    assert (Z.of_nat (reads (loop_final e file)) - 1
            <= (Z.of_nat (length (UploadFile.body file)) + 1048576 - 1) / 1048576)
      by (apply Z.div_le_lower_bound; lia).
    lia.
Qed.

(** X15 (a leftover temp file). A file already present at the temp path when
    the call starts is overwritten by [open]: when [open] succeeds, or the
    cleanup can remove the file, outcome and resulting directory are those
    of a call that found no such file. When [open] fails and the removal
    fails too, the 500 is raised and the leftover file is still there. *)
Theorem stale_temp_file_is_harmless (e : env) (fs : filesystem)
        (file : UploadFile.t) (junk : list byte) :
  (fault_open e = false \/ fault_remove e = false ->
   upload_video e (<[tmp_path_of e := junk]> fs) (Some file)
   = upload_video e fs (Some file))
  /\ (fault_open e = true -> fault_remove e = true ->
      upload_video e (<[tmp_path_of e := junk]> fs) (Some file)
      = (Raise (HTTPException 500 ("Failed to receive file data: " +:+ exc_text e)),
         <[tmp_path_of e := junk]> fs)).
Proof.
  split.
  - intros H. unfold upload_video, _enforce_file_size. cbv zeta.
    destruct (fault_open e).
    { destruct H as [H|H]; [discriminate|].
      now rewrite !remove_if_exists_delete, delete_insert_eq by exact H. }
    now rewrite insert_insert_eq.
  - intros Ho Hrm. unfold upload_video, _enforce_file_size. cbv zeta.
    now rewrite Ho, remove_staged, Hrm.
Qed.

(** A leftover file, [open] failing and the removal failing: the leftover
    stays; with the removal succeeding it is cleaned away. *)
Example stale_temp_file_kept :
  snd (upload_video (removal_fails env_open_fails)
         (<[tmp_path_of env0 := [x2a]]> ∅) (Some sample_file))
    !! tmp_path_of env0
  = Some [x2a]
  /\ snd (upload_video env_open_fails
            (<[tmp_path_of env0 := [x2a]]> ∅) (Some sample_file))
       !! tmp_path_of env0
     = None.
Proof. vm_compute. split; reflexivity. Qed.
